(** * Crypto.ts: the WebCrypto facade of tabris

    A shallow embedding of [src/tabris/Crypto.ts]: [Crypto.getRandomValues],
    the [SubtleCrypto] operations [digest], [importKey], [deriveBits],
    [deriveKey], [decrypt], [encrypt] and [exportKey], the [NativeCrypto]
    bridge object behind them and the derive-algorithm gate
    [checkDeriveAlgorithm], over a small model of the JavaScript values they
    inspect (primitives, and heap objects addressed by reference so that
    in-place mutation and copies are visible).  Of [generateKey], whose
    key pair rests on the role views of [_CryptoKey], the checks are
    embedded.

    JavaScript numbers are IEEE 754 doubles: they are Rocq's primitive
    floats, and [isNaN] is decided on them. *)

From Stdlib Require Import PrimFloat ZArith String List Bool Arith Lia.
From Stdlib Require Uint63.
From Stdlib.Strings Require Import Byte.
From stdpp Require Import base option list strings pretty.

Open Scope string_scope.
Open Scope list_scope.

(** ** Values and heap objects *)

(** Heap addresses, and the ids under which the Provider knows its objects. *)
Abbreviation loc := nat (only parsing).
Abbreviation cid := nat (only parsing).

(** The views [ArrayBuffer.isView] accepts: the seven integer typed arrays of
    the [TypedArray] type of the source, the two float arrays it names in
    [getRandomValues], and [DataView]. *)
Inductive ViewKind :=
| Int8Array | Uint8Array | Uint8ClampedArray
| Int16Array | Uint16Array | Int32Array | Uint32Array
| Float32Array | Float64Array
| DataView.

Definition isFloatArray (k : ViewKind) : bool :=
  match k with
  | Float32Array | Float64Array => true
  | _ => false
  end.

Definition BYTES_PER_ELEMENT (k : ViewKind) : nat :=
  match k with
  | Int8Array | Uint8Array | Uint8ClampedArray | DataView => 1
  | Int16Array | Uint16Array => 2
  | Int32Array | Uint32Array | Float32Array => 4
  | Float64Array => 8
  end.

Inductive value :=
| VUndefined
| VNull
| VBool (b : bool)
| VNum (n : float)
| VStr (s : string)
| VRef (l : loc).

(** A view is a window [byteOffset, byteOffset + byteLength) on a buffer. *)
Record view := View {
  view_kind : ViewKind;
  view_buffer : loc;
  view_byteOffset : nat;
  view_byteLength : nat
}.

(** Modelled from the spec: the [CryptoKey] class lives in [CryptoKey.ts],
    which is not part of the sources at hand.  A key handle carries the
    attributes the facade passes to its constructor ([undefined] when the
    facade leaves one out) and the reference to its native [_CryptoKey]. *)
Record CryptoKeyData := KeyData {
  key_native : loc;
  key_algorithm : value;
  key_extractable : value;
  key_type : value;
  key_usages : value
}.

Inductive obj :=
| OArrayBuffer (bytes : list byte)
| OView (v : view)
| OArray (elems : list value) (frozen : bool)
| ORecord (fields : list (string * value))
| O_CryptoKey (c : cid)
| OCryptoKey (k : CryptoKeyData).

Abbreviation heap := (list obj) (only parsing).

(** ** Errors

    The source raises [Error] and [TypeError] objects that differ by their
    message only; an error is modelled by the information its message is
    built from. *)

Inductive JsType :=
| TArrayBuffer | TObject | TBoolean | TArray | TCryptoKey | TNumber | TString.

Inductive error :=
| NotEnoughArguments (method : string)
| ExpectedArguments (expected got : nat)
| NotAcceptedArrayType (v : value)
| UnrecognizedName (algorithm : value)
| AesGcmNotSupported
| NotEnoughRandomBytes
| InternalTypeError
| NativeError (reason : string)
| OffsetOutOfBounds
| CannotReadProperty (target : value) (key : string)
| UnexpectedKey (target : value) (key : string)
| UnexpectedValue (valueName : string) (allowed : list string) (v : value)
| UnexpectedType (name : string) (expected : JsType) (v : value).

(** Modelled from the spec: the error taxonomy of its section 7.  The source
    has no error classes of its own; the spec sorts its failures into
    argument-count errors, validation errors, and the algorithm-mismatch
    subtype "for unsupported algorithm/name combinations (e.g. AES-GCM passed
    to a derive operation)". *)
Definition ArgumentCountError (e : error) : Prop :=
  match e with
  | NotEnoughArguments _ | ExpectedArguments _ _ => True
  | _ => False
  end.


Definition AlgorithmNameError (e : error) : Prop :=
  match e with
  | UnrecognizedName _ => True
  | _ => False
  end.

(** ** The Provider and the state of a run *)

(** Requests that cross the native bridge.  The first five are the
    [_nativeCall]s of [NativeCrypto]; [import_call] and [derive_call] are the
    requests of [_CryptoKey.import] and [_CryptoKey.derive]. *)
Inductive call :=
| getRandomValues_call (byteLength : nat)
| subtleDigest_call (algorithm data : value)
| subtleDecrypt_call (name : value) (iv : value) (tagLength : value)
    (key : option cid) (data : value)
| subtleEncrypt_call (name : value) (iv : value) (tagLength : value)
    (key : option cid) (data : value)
| subtleExportKey_call (format : value) (key : option cid)
| import_call (key : cid) (format keyData algorithm extractable keyUsages : value)
| derive_call (key : cid)
    (algorithm baseKey derivedKeyAlgorithm extractable keyUsages : value).

(** What the Provider hands to [onSuccess] (bytes, or something that is not
    an [ArrayBuffer]) or to [onError]. *)
Inductive response :=
| Success (result : option (list byte))
| Failure (reason : string).

Inductive event :=
| Create (c : cid)
| Call (c : call)
| Callback (c : call) (r : response)
| Destroy (c : cid)
| Uncaught (e : error).

(** The Provider is opaque: its answers may depend on everything that
    crossed the bridge so far. *)
Record Provider := {
  randomBytes : list event -> nat -> list byte;
  respond : list event -> call -> response
}.

Record state := State {
  st_heap : heap;
  st_live : list cid;
  st_next : cid;
  st_log : list event
}.

(** ** The monad of synchronous code: state, and a thrown error *)

Inductive completion (A : Type) :=
| Returns (a : A)
| Throws (e : error).
Arguments Returns {A} a.
Arguments Throws {A} e.

Definition M (A : Type) : Type := Provider -> state -> completion A * state.

#[global] Instance M_ret : MRet M := fun A a _ s => (Returns a, s).

#[global] Instance M_bind : MBind M := fun A B f m P s =>
  match m P s with
  | (Returns a, s') => f a P s'
  | (Throws e, s') => (Throws e, s')
  end.

Definition throw {A} (e : error) : M A := fun _ s => (Throws e, s).

Definition getHeap : M heap := fun _ s => (Returns (st_heap s), s).

Definition emit (ev : event) : M unit := fun _ s =>
  (Returns tt, State (st_heap s) (st_live s) (st_next s) (st_log s ++ [ev])).

Definition alloc (o : obj) : M loc := fun _ s =>
  (Returns (length (st_heap s)),
   State (st_heap s ++ [o]) (st_live s) (st_next s) (st_log s)).

Definition store (l : loc) (o : obj) : M unit := fun _ s =>
  (Returns tt, State (<[l := o]> (st_heap s)) (st_live s) (st_next s) (st_log s)).

(** [try { body } finally { fin }] : [fin] runs on both exits of [body]; its
    own throw, if any, replaces the completion of [body]. *)
Definition try_finally {A} (body : M A) (fin : M unit) : M A := fun P s =>
  let (r, s1) := body P s in
  match fin P s1 with
  | (Returns _, s2) => (r, s2)
  | (Throws e, s2) => (Throws e, s2)
  end.

(** ** Promises

    A promise made by [new Promise(executor)] settles when the Provider
    calls back, after the synchronous code that made it has run to its end:
    it is the deferred step that reads the Provider's answer.  A promise
    whose callback throws never settles. *)

Inductive promise (A : Type) :=
| Fulfilled (a : A)
| Rejected (e : error)
| Pending.
Arguments Fulfilled {A} a.
Arguments Rejected {A} e.
Arguments Pending {A}.

Definition deferred (A : Type) : Type := Provider -> state -> promise A * state.

(** What the body of an [async] function returns: a plain value, or a
    promise that the function's own promise then follows. *)
Inductive returned (A : Type) :=
| Value (a : A)
| Promise (d : deferred A).
Arguments Value {A} a.
Arguments Promise {A} d.

(** An [async] function never throws to its caller: a throw in the body
    rejects the promise it returns. *)
Definition async {A} (body : M (returned A)) : M (promise A) := fun P s =>
  match body P s with
  | (Throws e, s') => (Returns (Rejected e), s')
  | (Returns (Value a), s') => (Returns (Fulfilled a), s')
  | (Returns (Promise d), s') => let (p, s'') := d P s' in (Returns p, s'')
  end.

(** [new Promise(executor)]: the executor runs at once; a throw in it
    rejects the promise. *)
Definition newPromise {A} (executor : M (deferred A)) : M (deferred A) := fun P s =>
  match executor P s with
  | (Returns d, s') => (Returns d, s')
  | (Throws e, s') => (Returns (fun _ s'' => (Rejected e, s'')), s')
  end.

(** [Promise.reject(e)] *)
Definition Promise_reject {A} (e : error) : deferred A := fun _ s => (Rejected e, s).

(** A request with [onSuccess]/[onError] callbacks: the request crosses the
    bridge now, the answer is read when the promise settles. *)
Definition nativeCall (c : call) : M unit := emit (Call c).

Definition answer (c : call) : Provider -> state -> response * state := fun P s =>
  let r := respond P (st_log s) c in
  (r, State (st_heap s) (st_live s) (st_next s) (st_log s ++ [Callback c r])).

Definition liftAnswer (c : call) : M response := fun P s =>
  let (r, s') := answer c P s in (Returns r, s').

(** ** JavaScript built-ins the source uses *)

(** [arguments[i]]: a missing argument reads [undefined]. *)
Definition arg (i : nat) (args : list value) : value :=
  default VUndefined (args !! i).

Definition inb (s : string) (l : list string) : bool :=
  existsb (String.eqb s) l.

(** [v === "s"] *)
Definition strictEqStr (v : value) (s : string) : bool :=
  match v with
  | VStr s' => String.eqb s' s
  | _ => false
  end.

(** [Set.prototype.has] on a set of strings *)
Definition Set_has (set : list string) (v : value) : bool :=
  match v with
  | VStr s => inb s set
  | _ => false
  end.

Definition truthy (v : value) : bool :=
  match v with
  | VUndefined | VNull => false
  | VBool b => b
  | VNum n => negb (PrimFloat.is_nan n || PrimFloat.is_zero n)
  | VStr s => negb (String.eqb s "")
  | VRef _ => true
  end.

(** [ArrayBuffer.isView] *)
Definition isView (h : heap) (v : value) : option view :=
  match v with
  | VRef l =>
      match h !! l with
      | Some (OView vw) => Some vw
      | _ => None
      end
  | _ => None
  end.

Definition numberOfNat (n : nat) : float :=
  PrimFloat.of_uint63 (Uint63.of_Z (Z.of_nat n)).

Definition indexKeys (n : nat) : list string := map pretty (seq 0 n).

(** The own enumerable string keys of a value, in [Object.keys] order. *)
Definition ownKeys (h : heap) (v : value) : list string :=
  match v with
  | VStr s => indexKeys (String.length s)
  | VRef l =>
      match h !! l with
      | Some (ORecord fields) => map fst fields
      | Some (OArray elems _) => indexKeys (length elems)
      | Some (OView vw) =>
          match view_kind vw with
          | DataView => []
          | k => indexKeys (view_byteLength vw / BYTES_PER_ELEMENT k)
          end
      | _ => []
      end
  | _ => []
  end.

(** [Object.keys(v)] throws on [undefined] and [null]. *)
Definition Object_keys (v : value) : M (list string) :=
  h ← getHeap;
  match v with
  | VUndefined | VNull => throw (CannotReadProperty v "keys")
  | _ => mret (ownKeys h v)
  end.

Fixpoint lookupField (k : string) (fields : list (string * value)) : value :=
  match fields with
  | [] => VUndefined
  | (k', v) :: rest => if String.eqb k' k then v else lookupField k rest
  end.

(** [v.k], for the property names the source reads ([name], [namedCurve],
    [public], [hash], [salt], [info], [iv], [tagLength], [length]): a record
    yields its field, strings, arrays and typed arrays own [length], and reading a
    property of [undefined] or [null] throws. *)
Definition getProp (v : value) (k : string) : M value :=
  h ← getHeap;
  match v with
  | VUndefined | VNull => throw (CannotReadProperty v k)
  | VStr s =>
      mret (if String.eqb k "length" then VNum (numberOfNat (String.length s))
            else VUndefined)
  | VRef l =>
      match h !! l with
      | Some (ORecord fields) => mret (lookupField k fields)
      | Some (OArray elems _) =>
          mret (if String.eqb k "length" then VNum (numberOfNat (length elems))
                else VUndefined)
      | Some (OView vw) =>
          mret (match view_kind vw with
                | DataView => VUndefined
                | kind =>
                    if String.eqb k "length"
                    then VNum (numberOfNat (view_byteLength vw / BYTES_PER_ELEMENT kind))
                    else VUndefined
                end)
      | _ => mret VUndefined
      end
  | _ => mret VUndefined
  end.

(** ** Helpers imported from [./util] and [./checkType] *)

(** Modelled from the spec: [getBuffer] of [./util] is not among the sources.
    The spec's [requireBufferLike]: "returns the normalized underlying byte
    buffer if value is a byte buffer or a view over one with non-float
    element type; otherwise signals failure".  Failure is a falsy value that
    is no [ArrayBuffer]: [undefined]. *)
Definition getBuffer (h : heap) (v : value) : value :=
  match v with
  | VRef l =>
      match h !! l with
      | Some (OArrayBuffer _) => v
      | Some (OView vw) =>
          if isFloatArray (view_kind vw) then VUndefined
          else VRef (view_buffer vw)
      | _ => VUndefined
      end
  | _ => VUndefined
  end.

(** Modelled from the spec: [allowOnlyKeys] of [./util] is not among the
    sources.  The spec's [requireKeysSubset]: "fails if record has any key
    not in allowedKeys".  The failure names the first such key. *)
Definition allowOnlyKeys (target : value) (allowedKeys : list string) : M unit :=
  h ← getHeap;
  match List.find (fun k => negb (inb k allowedKeys)) (ownKeys h target) with
  | Some k => throw (UnexpectedKey target k)
  | None => mret tt
  end.

(** Modelled from the spec: [allowOnlyValues] of [./util] is not among the
    sources.  The spec's [requireEnumMember]: "fails if value is not exactly
    one of allowedValues".  The allowed values are strings throughout. *)
Definition allowOnlyValues (v : value) (allowedValues : list string)
    (valueName : string) : M unit :=
  if Set_has allowedValues v then mret tt
  else throw (UnexpectedValue valueName allowedValues v).

Definition hasType (h : heap) (v : value) (T : JsType) : bool :=
  match T, v with
  | TBoolean, VBool _ => true
  | TNumber, VNum _ => true
  | TString, VStr _ => true
  | TArrayBuffer, VRef l =>
      match h !! l with Some (OArrayBuffer _) => true | _ => false end
  | TArray, VRef l =>
      match h !! l with Some (OArray _ _) => true | _ => false end
  | TCryptoKey, VRef l =>
      match h !! l with Some (OCryptoKey _) => true | _ => false end
  | TObject, VRef l =>
      match h !! l with Some _ => true | None => false end
  | _, _ => false
  end.

(** Modelled from the spec: [checkType] of [./checkType] is not among the
    sources.  The spec's [requireType]: "fails if value's runtime shape does
    not match expectedKind"; "nullable permits undefined/absent". *)
Definition checkType (v : value) (T : JsType) (name : string)
    (nullable : bool) : M unit :=
  h ← getHeap;
  match v with
  | VUndefined => if nullable then mret tt else throw (UnexpectedType name T v)
  | _ => if hasType h v T then mret tt else throw (UnexpectedType name T v)
  end.

(** Modelled from the spec: [getNativeObject] and [getCid] of [./util] are not
    among the sources.  A [CryptoKey] owns the [_CryptoKey] it was built
    around, whose [cid] addresses the Provider-side key; [getCid] also takes
    the [_CryptoKey] itself.  Anything else has no cid. *)
Definition getNativeObject (h : heap) (key : value) : option loc :=
  match key with
  | VRef l =>
      match h !! l with
      | Some (OCryptoKey k) => Some (key_native k)
      | _ => None
      end
  | _ => None
  end.

Definition cidOf (h : heap) (nativeObject : loc) : option cid :=
  match h !! nativeObject with
  | Some (O_CryptoKey c) => Some c
  | _ => None
  end.

Definition getCid (h : heap) (key : value) : option cid :=
  match key with
  | VRef l =>
      match h !! l with
      | Some (O_CryptoKey c) => Some c
      | Some (OCryptoKey k) => cidOf h (key_native k)
      | _ => None
      end
  | _ => None
  end.

(** ** [_CryptoKey] and [CryptoKey] *)

(** Modelled from the spec: [_CryptoKey] of [./CryptoKey] is not among the
    sources.  The spec's [create()]: "requests a new empty Provider-side key
    container; returns a handle with no material yet". *)
Definition new__CryptoKey : M loc := fun _ s =>
  let c := st_next s in
  (Returns (length (st_heap s)),
   State (st_heap s ++ [O_CryptoKey c]) (c :: st_live s) (S c)
     (st_log s ++ [Create c])).

(** Modelled from the spec: [dispose(handle)] "releases the Provider-side
    resource; idempotent". *)
Definition dispose (nativeObject : loc) : M unit := fun _ s =>
  match cidOf (st_heap s) nativeObject with
  | Some c =>
      if existsb (Nat.eqb c) (st_live s)
      then (Returns tt,
            State (st_heap s) (List.filter (fun c' => negb (Nat.eqb c c')) (st_live s))
              (st_next s) (st_log s ++ [Destroy c]))
      else (Returns tt, s)
  | None => (Returns tt, s)
  end.

(** [await request]: the request crosses the bridge, and the function
    resumes with the Provider's answer; an error answer is thrown at the
    [await], wrapping the Provider's reason. *)
Definition awaitCall (c : call) : M unit :=
  nativeCall c;;
  r ← liftAnswer c;
  match r with
  | Success _ => mret tt
  | Failure reason => throw (NativeError reason)
  end.

(** Modelled from the spec: [await nativeObject.import(...)], the Provider's
    [importKey(format, bytes, algorithm, extractable, usages)], one request
    with one success or one error callback. *)
Definition await_import (nativeObject : loc)
    (format keyData algorithm extractable keyUsages : value) : M unit :=
  h ← getHeap;
  match cidOf h nativeObject with
  | Some c => awaitCall (import_call c format keyData algorithm extractable keyUsages)
  | None => mret tt
  end.

(** Modelled from the spec: [await nativeObject.derive(...)], the Provider's
    [deriveBits(algorithm, baseKeyRef, derivedAlgorithmSpec, extractable,
    usages)]. *)
Definition await_derive (nativeObject : loc)
    (algorithm baseKey derivedKeyAlgorithm extractable keyUsages : value) : M unit :=
  h ← getHeap;
  match cidOf h nativeObject with
  | Some c =>
      awaitCall (derive_call c algorithm baseKey derivedKeyAlgorithm extractable keyUsages)
  | None => mret tt
  end.

(** [new CryptoKey(nativeObject, data)] *)
Definition new_CryptoKey (nativeObject : loc)
    (algorithm extractable type usages : value) : M value :=
  l ← alloc (OCryptoKey (KeyData nativeObject algorithm extractable type usages));
  mret (VRef l).

(** [array.concat()]: a new array with the same elements. *)
Definition Array_concat (array : value) : M value :=
  h ← getHeap;
  match array with
  | VRef l =>
      match h !! l with
      | Some (OArray elems _) => l' ← alloc (OArray elems false); mret (VRef l')
      | _ => throw (CannotReadProperty array "concat")
      end
  | _ => throw (CannotReadProperty array "concat")
  end.

(** [Object.freeze(array)] returns its argument. *)
Definition Object_freeze (array : value) : M value :=
  h ← getHeap;
  match array with
  | VRef l =>
      match h !! l with
      | Some (OArray elems _) => store l (OArray elems true);; mret array
      | _ => mret array
      end
  | _ => mret array
  end.

(** ** [NativeCrypto] *)

Module NativeCrypto.

(** The synchronous [_nativeCall('getRandomValues', {byteLength})]. *)
Definition nativeCall_getRandomValues (byteLength : nat) : M (list byte) := fun P s =>
  let values := randomBytes P (st_log s) byteLength in
  (Returns values,
   State (st_heap s) (st_live s) (st_next s)
     (st_log s ++ [Call (getRandomValues_call byteLength)])).

(** [new Uint8Array(buffer).set(values)]: the bytes of [values] land at the
    start of [buffer]; [set] throws when [values] is longer than its target. *)
Definition Uint8Array_set (buffer : loc) (values : list byte) : M unit :=
  h ← getHeap;
  match h !! buffer with
  | Some (OArrayBuffer bytes) =>
      if Nat.ltb (length bytes) (length values) then throw OffsetOutOfBounds
      else store buffer (OArrayBuffer (values ++ drop (length values) bytes))
  | _ => mret tt
  end.

Definition getRandomValues (typedArray : value) (vw : view) : M value :=
  let byteLength := view_byteLength vw in
  values ← nativeCall_getRandomValues byteLength;
  if negb (Nat.eqb (length values) byteLength) then throw NotEnoughRandomBytes
  else
    Uint8Array_set (view_buffer vw) values;;
    mret typedArray.

(** [ArrayBuffer.isView(data) ? data.buffer : data] *)
Definition bufferOrSelf (h : heap) (data : value) : value :=
  match isView h data with
  | Some vw => VRef (view_buffer vw)
  | None => data
  end.

Definition subtleDigest (algorithm data : value) : M (deferred value) :=
  h ← getHeap;
  let c := subtleDigest_call algorithm (bufferOrSelf h data) in
  nativeCall c;;
  mret (fun P s =>
    let (r, s1) := answer c P s in
    match r with
    | Success (Some (b :: bytes)) =>
        (Fulfilled (VRef (length (st_heap s1))),
         State (st_heap s1 ++ [OArrayBuffer (b :: bytes)]) (st_live s1)
           (st_next s1) (st_log s1))
    | Success _ =>
        (Pending,
         State (st_heap s1) (st_live s1) (st_next s1)
           (st_log s1 ++ [Uncaught InternalTypeError]))
    | Failure reason => (Rejected (NativeError reason), s1)
    end).

(** The settlement of a promise whose [onSuccess] is its [resolve] and whose
    [onError] rejects with [new Error(String(reason))]. *)
Definition settle (c : call) : deferred value := fun P s =>
  let (r, s1) := answer c P s in
  match r with
  | Success (Some bytes) =>
      (Fulfilled (VRef (length (st_heap s1))),
       State (st_heap s1 ++ [OArrayBuffer bytes]) (st_live s1)
         (st_next s1) (st_log s1))
  | Success None => (Fulfilled VUndefined, s1)
  | Failure reason => (Rejected (NativeError reason), s1)
  end.

Definition subtleExportKey (format key : value) : M (deferred value) :=
  h ← getHeap;
  let c := subtleExportKey_call format (getCid h key) in
  nativeCall c;;
  mret (settle c).

Section Coercion.

(** [ToNumber] on strings and objects is the engine's own conversion; the
    source applies [isNaN] to a [tagLength] that it declares to be a number
    or absent. *)
Variable ToNumber_other : heap -> value -> float.

Definition ToNumber (h : heap) (v : value) : float :=
  match v with
  | VUndefined => nan
  | VNull => zero
  | VBool true => one
  | VBool false => zero
  | VNum n => n
  | _ => ToNumber_other h v
  end.

Definition isNaN (h : heap) (v : value) : bool :=
  PrimFloat.is_nan (ToNumber h v).

(** [isNaN(tagLength as number) ? 128 : tagLength] *)
Definition effectiveTagLength (h : heap) (tagLength : value) : value :=
  if isNaN h tagLength then VNum 128%float else tagLength.

Definition subtleDecrypt (algorithm key data : value) : M (deferred value) :=
  name ← getProp algorithm "name";
  iv ← getProp algorithm "iv";
  tagLength ← getProp algorithm "tagLength";
  h ← getHeap;
  let c := subtleDecrypt_call name (getBuffer h iv) (effectiveTagLength h tagLength)
             (from_option (cidOf h) None (getNativeObject h key))
             (bufferOrSelf h data) in
  nativeCall c;;
  mret (settle c).

Definition subtleEncrypt (algorithm key data : value) : M (deferred value) :=
  name ← getProp algorithm "name";
  iv ← getProp algorithm "iv";
  tagLength ← getProp algorithm "tagLength";
  h ← getHeap;
  let c := subtleEncrypt_call name (getBuffer h iv) (effectiveTagLength h tagLength)
             (getCid h key) (getBuffer h data) in
  nativeCall c;;
  mret (settle c).

End Coercion.

End NativeCrypto.

(** ** [checkDeriveAlgorithm] *)

Definition checkDeriveAlgorithm (algorithm : value) : M unit :=
  if strictEqStr algorithm "HKDF" then mret tt
  else if strictEqStr algorithm "AES-GCM" then throw AesGcmNotSupported
  else
    allowOnlyKeys algorithm ["name"; "namedCurve"; "public"; "hash"; "salt"; "info"];;
    name ← getProp algorithm "name";
    allowOnlyValues name ["ECDH"; "HKDF"] "algorithm.name";;
    name ← getProp algorithm "name";
    if strictEqStr name "ECDH" then
      namedCurve ← getProp algorithm "namedCurve";
      allowOnlyValues namedCurve ["P-256"] "algorithm.namedCurve";;
      public ← getProp algorithm "public";
      checkType public TCryptoKey "algorithm.public" false
    else
      name ← getProp algorithm "name";
      if strictEqStr name "HKDF" then
        hash ← getProp algorithm "hash";
        checkType hash TString "algorithm.hash" false;;
        salt ← getProp algorithm "salt";
        h ← getHeap;
        checkType (getBuffer h salt) TArrayBuffer "algorithm.salt" false;;
        info ← getProp algorithm "info";
        h ← getHeap;
        checkType (getBuffer h info) TArrayBuffer "algorithm.info" false
      else mret tt.

(** ** [Crypto] *)

Module Crypto.

Definition getRandomValues (arguments : list value) : M value :=
  let typedArray := arg 0 arguments in
  if Nat.eqb (length arguments) 0
  then throw (NotEnoughArguments "Crypto.getRandomValues")
  else
    h ← getHeap;
    match isView h typedArray with
    | Some vw =>
        if isFloatArray (view_kind vw) then throw (NotAcceptedArrayType typedArray)
        else NativeCrypto.getRandomValues typedArray vw
    | None => throw (NotAcceptedArrayType typedArray)
    end.

End Crypto.

(** ** [SubtleCrypto] *)

Module SubtleCrypto.

Definition validAlgorithms : list string := ["SHA-1"; "SHA-256"; "SHA-384"; "SHA-512"].

Definition digest (arguments : list value) : M (promise value) :=
  let algorithm := arg 0 arguments in
  let data := arg 1 arguments in
  async (
    if Nat.ltb (length arguments) 2
    then mret (Promise (Promise_reject (NotEnoughArguments "SubtleCrypto.digest")))
    else if negb (Set_has validAlgorithms algorithm)
    then mret (Promise (Promise_reject (UnrecognizedName algorithm)))
    else
      h ← getHeap;
      if negb (truthy (getBuffer h data))
      then mret (Promise (Promise_reject (NotAcceptedArrayType data)))
      else
        p ← newPromise (NativeCrypto.subtleDigest algorithm data);
        mret (Promise p)).

(** Lines 72 to 90 of the source: everything [importKey] checks before it
    creates the native key. *)
Definition importKey_validate (arguments : list value) : M unit :=
  let format := arg 0 arguments in
  let keyData := arg 1 arguments in
  let algorithm := arg 2 arguments in
  let extractable := arg 3 arguments in
  let keyUsages := arg 4 arguments in
  if negb (Nat.eqb (length arguments) 5)
  then throw (ExpectedArguments 5 (length arguments))
  else
    allowOnlyValues format ["spki"; "pkcs8"; "raw"] "format";;
    h ← getHeap;
    checkType (getBuffer h keyData) TArrayBuffer "keyData" false;;
    match algorithm with
    | VStr _ => allowOnlyValues algorithm ["ECDH"; "AES-GCM"; "HKDF"] "algorithm"
    | _ =>
        checkType algorithm TObject "algorithm" false;;
        name ← getProp algorithm "name";
        allowOnlyValues name ["ECDH"; "AES-GCM"] "algorithm.name";;
        name ← getProp algorithm "name";
        if strictEqStr name "ECDH" then
          allowOnlyKeys algorithm ["name"; "namedCurve"];;
          namedCurve ← getProp algorithm "namedCurve";
          allowOnlyValues namedCurve ["P-256"] "algorithm.namedCurve"
        else
          allowOnlyKeys algorithm ["name"]
    end;;
    checkType extractable TBoolean "extractable" false;;
    checkType keyUsages TArray "keyUsages" false.

(** [algorithmKeys.length === 1 && algorithmKeys[0] === 'name'
      ? algorithm.name : algorithm] *)
Definition algorithmInternal (algorithm : value) : M value :=
  algorithmKeys ← Object_keys algorithm;
  if Nat.eqb (length algorithmKeys) 1
     && strictEqStr (from_option VStr VUndefined (algorithmKeys !! 0)) "name"
  then getProp algorithm "name"
  else mret algorithm.

Definition importKey (arguments : list value) : M (promise value) :=
  let format := arg 0 arguments in
  let keyData := arg 1 arguments in
  let algorithm := arg 2 arguments in
  let extractable := arg 3 arguments in
  let keyUsages := arg 4 arguments in
  async (
    importKey_validate arguments;;
    nativeObject ← new__CryptoKey;
    algorithmInternal ← algorithmInternal algorithm;
    await_import nativeObject format keyData algorithmInternal extractable keyUsages;;
    copy ← Array_concat keyUsages;
    usages ← Object_freeze copy;
    key ← new_CryptoKey nativeObject algorithmInternal extractable VUndefined usages;
    mret (Value key)).

(** Lines 108 to 113 of the source. *)
Definition deriveBits_validate (arguments : list value) : M unit :=
  let algorithm := arg 0 arguments in
  let baseKey := arg 1 arguments in
  let length_ := arg 2 arguments in
  if negb (Nat.eqb (length arguments) 3)
  then throw (ExpectedArguments 3 (length arguments))
  else
    checkDeriveAlgorithm algorithm;;
    checkType baseKey TCryptoKey "baseKey" false;;
    checkType length_ TNumber "length" false.

Definition deriveBits (arguments : list value) : M (promise value) :=
  let algorithm := arg 0 arguments in
  let baseKey := arg 1 arguments in
  let length_ := arg 2 arguments in
  async (
    deriveBits_validate arguments;;
    nativeObject ← new__CryptoKey;
    try_finally
      (derivedKeyAlgorithm ← alloc (ORecord [("length", length_); ("name", VStr "AES-GCM")]);
       keyUsages ← alloc (OArray [] false);
       await_derive nativeObject algorithm baseKey (VRef derivedKeyAlgorithm)
         (VBool true) (VRef keyUsages);;
       p ← newPromise (NativeCrypto.subtleExportKey (VStr "raw") (VRef nativeObject));
       mret (Promise p))
      (dispose nativeObject)).

(** Lines 132 to 141 of the source. *)
Definition deriveKey_validate (arguments : list value) : M unit :=
  let algorithm := arg 0 arguments in
  let baseKey := arg 1 arguments in
  let derivedKeyAlgorithm := arg 2 arguments in
  let extractable := arg 3 arguments in
  let keyUsages := arg 4 arguments in
  if negb (Nat.eqb (length arguments) 5)
  then throw (ExpectedArguments 5 (length arguments))
  else
    checkDeriveAlgorithm algorithm;;
    allowOnlyKeys derivedKeyAlgorithm ["name"; "length"];;
    name ← getProp derivedKeyAlgorithm "name";
    allowOnlyValues name ["AES-GCM"] "derivedKeyAlgorithm.name";;
    length_ ← getProp derivedKeyAlgorithm "length";
    checkType length_ TNumber "derivedKeyAlgorithm.length" false;;
    checkType baseKey TCryptoKey "baseKey" false;;
    checkType extractable TBoolean "extractable" false;;
    checkType keyUsages TArray "keyUsages" false.

Definition deriveKey (arguments : list value) : M (promise value) :=
  let algorithm := arg 0 arguments in
  let baseKey := arg 1 arguments in
  let derivedKeyAlgorithm := arg 2 arguments in
  let extractable := arg 3 arguments in
  let keyUsages := arg 4 arguments in
  async (
    deriveKey_validate arguments;;
    nativeObject ← new__CryptoKey;
    await_derive nativeObject algorithm baseKey derivedKeyAlgorithm extractable keyUsages;;
    copy ← Array_concat keyUsages;
    usages ← Object_freeze copy;
    key ← new_CryptoKey nativeObject algorithm extractable (VStr "secret") usages;
    mret (Value key)).

(** Lines 161 to 169 and 184 to 192 of the source: [decrypt] and [encrypt]
    check their arguments alike. *)
Definition cipher_validate (arguments : list value) : M unit :=
  let algorithm := arg 0 arguments in
  let key := arg 1 arguments in
  let data := arg 2 arguments in
  if negb (Nat.eqb (length arguments) 3)
  then throw (ExpectedArguments 3 (length arguments))
  else
    allowOnlyKeys algorithm ["name"; "iv"; "tagLength"];;
    name ← getProp algorithm "name";
    allowOnlyValues name ["AES-GCM"] "algorithm.name";;
    tagLength ← getProp algorithm "tagLength";
    checkType tagLength TNumber "algorithm.tagLength" true;;
    iv ← getProp algorithm "iv";
    h ← getHeap;
    checkType (getBuffer h iv) TArrayBuffer "algorithm.iv" false;;
    checkType key TCryptoKey "key" false;;
    h ← getHeap;
    checkType (getBuffer h data) TArrayBuffer "data" false.

Definition exportKey (arguments : list value) : M (promise value) :=
  let format := arg 0 arguments in
  let key := arg 1 arguments in
  async (
    (if negb (Nat.eqb (length arguments) 2)
     then throw (ExpectedArguments 2 (length arguments))
     else
       allowOnlyValues format ["raw"; "spki"] "format";;
       checkType key TCryptoKey "key" false);;
    p ← newPromise (NativeCrypto.subtleExportKey format key);
    mret (Promise p)).

Section Coercion.

Variable ToNumber_other : heap -> value -> float.

Definition decrypt (arguments : list value) : M (promise value) :=
  let algorithm := arg 0 arguments in
  let key := arg 1 arguments in
  let data := arg 2 arguments in
  async (
    cipher_validate arguments;;
    p ← newPromise (NativeCrypto.subtleDecrypt ToNumber_other algorithm key data);
    mret (Promise p)).

Definition encrypt (arguments : list value) : M (promise value) :=
  let algorithm := arg 0 arguments in
  let key := arg 1 arguments in
  let data := arg 2 arguments in
  async (
    cipher_validate arguments;;
    p ← newPromise (NativeCrypto.subtleEncrypt ToNumber_other algorithm key data);
    mret (Promise p)).

End Coercion.

(** Lines 217 to 224 of the source: everything [generateKey] checks before
    it creates the native key. *)
Definition generateKey_validate (arguments : list value) : M unit :=
  let algorithm := arg 0 arguments in
  let extractable := arg 1 arguments in
  let keyUsages := arg 2 arguments in
  if negb (Nat.eqb (length arguments) 3)
  then throw (ExpectedArguments 3 (length arguments))
  else
    allowOnlyKeys algorithm ["name"; "namedCurve"];;
    name ← getProp algorithm "name";
    allowOnlyValues name ["ECDH"] "algorithm.name";;
    namedCurve ← getProp algorithm "namedCurve";
    allowOnlyValues namedCurve ["P-256"] "algorithm.namedCurve";;
    checkType extractable TBoolean "extractable" false;;
    checkType keyUsages TArray "keyUsages" false.

End SubtleCrypto.

(** ** Notions the statements use *)

(** A byte buffer, or a view with non-float elements over one. *)
Definition isBufferLike (h : heap) (v : value) : bool :=
  match v with
  | VRef l =>
      match h !! l with
      | Some (OArrayBuffer _) => true
      | Some (OView vw) => negb (isFloatArray (view_kind vw))
      | _ => false
      end
  | _ => false
  end.

Definition bufferBytes (h : heap) (buffer : loc) : list byte :=
  match h !! buffer with
  | Some (OArrayBuffer bytes) => bytes
  | _ => []
  end.

(** The bytes a view shows: its window on its buffer. *)
Definition viewBytes (h : heap) (vw : view) : list byte :=
  take (view_byteLength vw) (drop (view_byteOffset vw) (bufferBytes h (view_buffer vw))).

(** A structured descriptor: a plain object with the given [name] field. *)
Definition descriptorNamed (h : heap) (algorithm : value) (name : string) : Prop :=
  exists l fields,
    algorithm = VRef l /\ h !! l = Some (ORecord fields) /\
    lookupField "name" fields = VStr name.



(** What a descriptor that [importKey] lets through looks like. *)
Definition acceptedDescriptor (fields : list (string * value)) : Prop :=
  (lookupField "name" fields = VStr "ECDH"
   /\ lookupField "namedCurve" fields = VStr "P-256"
   /\ List.find (fun k => negb (inb k ["name"; "namedCurve"])) (map fst fields) = None)
  \/ (lookupField "name" fields = VStr "AES-GCM"
      /\ List.find (fun k => negb (inb k ["name"])) (map fst fields) = None).

(** Lines 92 to 94 of the source, read off the heap: a plain object whose
    only key is [name] stands for that name, anything else for itself. *)
Definition collapsed (h : heap) (algorithm : value) : value :=
  match algorithm with
  | VRef l =>
      match h !! l with
      | Some (ORecord [(k, v)]) => if String.eqb k "name" then v else algorithm
      | _ => algorithm
      end
  | _ => algorithm
  end.

(** No key of the record is outside [allowedKeys]. *)
Definition keysWithin (allowedKeys : list string) (fields : list (string * value)) : Prop :=
  List.find (fun k => negb (inb k allowedKeys)) (map fst fields) = None.

(** What [checkDeriveAlgorithm] lets through: the bare string ["HKDF"], an
    ECDH descriptor with its curve and the peer's public key, or an HKDF
    descriptor with its hash, salt and info. *)
Definition acceptedDeriveAlgorithm (h : heap) (algorithm : value) : Prop :=
  algorithm = VStr "HKDF"
  \/ exists l fields,
       algorithm = VRef l /\ h !! l = Some (ORecord fields)
       /\ keysWithin ["name"; "namedCurve"; "public"; "hash"; "salt"; "info"] fields
       /\ ((lookupField "name" fields = VStr "ECDH"
            /\ lookupField "namedCurve" fields = VStr "P-256"
            /\ hasType h (lookupField "public" fields) TCryptoKey = true)
           \/ (lookupField "name" fields = VStr "HKDF"
               /\ hasType h (lookupField "hash" fields) TString = true
               /\ hasType h (getBuffer h (lookupField "salt" fields)) TArrayBuffer = true
               /\ hasType h (getBuffer h (lookupField "info" fields)) TArrayBuffer = true)).

(** What the checks of [encrypt] and [decrypt] let through as algorithm. *)
Definition acceptedCipherAlgorithm (h : heap) (algorithm : value) : Prop :=
  exists l fields,
    algorithm = VRef l /\ h !! l = Some (ORecord fields)
    /\ keysWithin ["name"; "iv"; "tagLength"] fields
    /\ lookupField "name" fields = VStr "AES-GCM"
    /\ (lookupField "tagLength" fields = VUndefined
        \/ exists n, lookupField "tagLength" fields = VNum n)
    /\ hasType h (getBuffer h (lookupField "iv" fields)) TArrayBuffer = true.

(** The state after a run differs from the state before by what was added
    at the end of the heap and of the log: no object that existed is
    changed, and no native object is created or destroyed. *)
Definition onlyExtends (s s' : state) : Prop :=
  st_live s' = st_live s
  /\ st_next s' = st_next s
  /\ (exists objects, st_heap s' = st_heap s ++ objects)
  /\ (exists events, st_log s' = st_log s ++ events).

(** Ids of native objects are handed out in increasing order: every live
    one is below the next to be given. *)
Definition liveBelowNext (s : state) : Prop :=
  Forall (fun c => c < st_next s) (st_live s).

(** One request with [onSuccess] and [onError] callbacks, from the moment it
    crosses the bridge to the settlement of its promise. *)
Definition request (c : call) (P : Provider) (s : state) : completion (promise value) * state :=
  let (p, s') := NativeCrypto.settle c P
                   (State (st_heap s) (st_live s) (st_next s) (st_log s ++ [Call c])) in
  (Returns p, s').

(** ** A fixture: a small heap and two Providers *)

Module Fixture.

(** [bytes = new ArrayBuffer(4)], [tail = new Uint8Array(bytes, 2, 2)],
    [whole = new Uint8Array(bytes)], descriptors, a usages array, and an
    HKDF key handle over the native key 0. *)
Definition objects : heap :=
  [ OArrayBuffer [x00; x00; x00; x00];
    OView (View Uint8Array 0 2 2);
    OView (View Uint8Array 0 0 4);
    ORecord [("name", VStr "AES-GCM")];
    OArray [VStr "deriveKey"] false;
    O_CryptoKey 0;
    OCryptoKey (KeyData 5 (VStr "HKDF") (VBool true) (VStr "secret") (VRef 4));
    ORecord [("name", VStr "AES-GCM"); ("iv", VRef 0)];
    ORecord [("name", VStr "ECDH"); ("namedCurve", VStr "P-256")];
    ORecord [("name", VStr "HKDF")];
    ORecord [("name", VStr "AES-GCM"); ("iv", VRef 0); ("tagLength", VNum nan)];
    ORecord [("name", VStr "AES-GCM"); ("iv", VRef 0); ("tagLength", VNum 96%float)] ].

Definition bytes := VRef 0.
Definition tail := VRef 1.
Definition whole := VRef 2.
Definition aesGcm := VRef 3.
Definition usages := VRef 4.
Definition hkdfKey := VRef 6.
Definition aesGcmIv := VRef 7.
Definition ecdhP256 := VRef 8.
Definition hkdfDescriptor := VRef 9.
Definition aesGcm96 := VRef 11.

Definition start : state := State objects [0] 1 [].

(** A Provider that serves every request. *)
Definition serving : Provider := {|
  randomBytes := fun _ n => repeat xaa n;
  respond := fun _ _ => Success (Some [x01; x02])
|}.

(** A Provider that refuses every request, and hands out one random byte
    too many. *)
Definition refusing : Provider := {|
  randomBytes := fun _ n => repeat xaa (S n);
  respond := fun _ _ => Failure "refused"
|}.

Definition noCoercion : heap -> value -> float := fun _ _ => nan.

End Fixture.

(** The fixture with a target for [deriveKey], [{name: "AES-GCM", length:
    256}], and an HKDF descriptor over the buffer. *)
Module DeriveFixture.

Definition objects : list obj :=
  Fixture.objects
  ++ [ ORecord [("name", VStr "AES-GCM"); ("length", VNum 256%float)];
       ORecord [("name", VStr "HKDF"); ("hash", VStr "SHA-256");
                ("salt", VRef 0); ("info", VRef 2)] ].

Definition aes256 := VRef 12.
Definition hkdfSha256 := VRef 13.

Definition start : state := State objects [0] 1 [].

End DeriveFixture.

(** * Properties *)

(** ** Running monadic code *)

#[global] Arguments isView : simpl never.
#[global] Arguments getBuffer : simpl never.
#[global] Arguments hasType : simpl never.
#[global] Arguments ownKeys : simpl never.
#[global] Arguments cidOf : simpl never.
#[global] Arguments getCid : simpl never.
#[global] Arguments getNativeObject : simpl never.
#[global] Arguments Set_has : simpl never.
#[global] Arguments inb : simpl never.
#[global] Arguments strictEqStr : simpl never.

Ltac run :=
  unfold mbind, M_bind, mret, M_ret, throw, getHeap, emit, alloc, store,
    nativeCall, liftAnswer, answer;
  simpl.

Lemma arg_0 (a : value) (rest : list value) : arg 0 (a :: rest) = a.
Proof. reflexivity. Qed.

Lemma arg_S (i : nat) (a : value) (rest : list value) :
  arg (S i) (a :: rest) = arg i rest.
Proof. reflexivity. Qed.

Lemma arg_nil (i : nat) : arg i [] = VUndefined.
Proof. destruct i; reflexivity. Qed.

Create Rewrite HintDb args.
#[global] Hint Rewrite arg_0 arg_S arg_nil : args.

(** Code that leaves the state as it found it: the checks of the facade. *)
Definition readonly {A} (m : M A) : Prop := forall P s, snd (m P s) = s.

Lemma readonly_ret {A} (a : A) : readonly (mret a).
Proof. intros P s. reflexivity. Qed.

Lemma readonly_throw {A} (e : error) : readonly (@throw A e).
Proof. intros P s. reflexivity. Qed.

Lemma readonly_getHeap : readonly getHeap.
Proof. intros P s. reflexivity. Qed.

Lemma readonly_bind {A B} (m : M A) (f : A -> M B) :
  readonly m -> (forall a, readonly (f a)) -> readonly (m ≫= f).
Proof.
  intros Hm Hf P s. unfold mbind, M_bind.
  specialize (Hm P s). destruct (m P s) as [[a | e] s1]; simpl in Hm; subst s1.
  - apply Hf.
  - reflexivity.
Qed.

Lemma readonly_run {A} (m : M A) P s : readonly m -> m P s = (fst (m P s), s).
Proof. intros H. specialize (H P s). destruct (m P s); simpl in *; congruence. Qed.

Lemma run_bind {A B} (m : M A) (f : A -> M B) (P : Provider) (s : state) :
  (m ≫= f) P s
  = match m P s with
    | (Returns a, s') => f a P s'
    | (Throws e, s') => (Throws e, s')
    end.
Proof. reflexivity. Qed.

(** Sequencing after a check that passes. *)
Lemma bind_passes {A B} (m : M A) (f : A -> M B) P s a :
  readonly m -> fst (m P s) = Returns a -> (m ≫= f) P s = f a P s.
Proof.
  intros Hm Ha. unfold mbind, M_bind.
  rewrite (readonly_run m P s Hm), Ha. reflexivity.
Qed.

Lemma bind_throws {A B} (m : M A) (f : A -> M B) P s e :
  readonly m -> fst (m P s) = Throws e -> (m ≫= f) P s = (Throws e, s).
Proof.
  intros Hm He. unfold mbind, M_bind.
  rewrite (readonly_run m P s Hm), He. reflexivity.
Qed.

(** What a sequence that passes says of its parts. *)
Lemma bind_returns_inv {A B} (m : M A) (f : A -> M B) P s b :
  readonly m -> fst ((m ≫= f) P s) = Returns b ->
  exists a, fst (m P s) = Returns a /\ fst (f a P s) = Returns b.
Proof.
  intros Hm. unfold mbind, M_bind. rewrite (readonly_run m P s Hm).
  destruct (fst (m P s)) as [a | e]; simpl; [eauto | discriminate].
Qed.

Lemma readonly_getProp v k : readonly (getProp v k).
Proof.
  intros P s. unfold getProp. run.
  destruct v as [| | | | s0 | l]; try reflexivity.
  destruct (st_heap s !! l) as [[] |]; reflexivity.
Qed.

Lemma readonly_allowOnlyKeys target allowedKeys :
  readonly (allowOnlyKeys target allowedKeys).
Proof.
  intros P s. unfold allowOnlyKeys. run.
  destruct (find _ _); reflexivity.
Qed.

Lemma readonly_allowOnlyValues v allowedValues valueName :
  readonly (allowOnlyValues v allowedValues valueName).
Proof.
  intros P s. unfold allowOnlyValues. destruct (Set_has _ _); reflexivity.
Qed.

Lemma readonly_checkType v T name nullable : readonly (checkType v T name nullable).
Proof.
  intros P s. unfold checkType. run.
  destruct v; try destruct nullable; try destruct (hasType _ _ _); reflexivity.
Qed.

Create HintDb readonly.
#[global] Hint Resolve readonly_ret readonly_throw readonly_getHeap
  readonly_getProp readonly_allowOnlyKeys readonly_allowOnlyValues
  readonly_checkType : readonly.

Ltac readonly_tac :=
  repeat first
    [ progress eauto with readonly
    | apply readonly_bind; [| intros ?]
    | match goal with
      | |- readonly (if ?b then _ else _) => destruct b
      | |- readonly (match ?v with _ => _ end) => destruct v
      end ].

Lemma readonly_checkDeriveAlgorithm algorithm : readonly (checkDeriveAlgorithm algorithm).
Proof. unfold checkDeriveAlgorithm. readonly_tac. Qed.

Lemma readonly_importKey_validate arguments :
  readonly (SubtleCrypto.importKey_validate arguments).
Proof. unfold SubtleCrypto.importKey_validate. readonly_tac. Qed.

Lemma readonly_deriveBits_validate arguments :
  readonly (SubtleCrypto.deriveBits_validate arguments).
Proof.
  unfold SubtleCrypto.deriveBits_validate.
  pose proof readonly_checkDeriveAlgorithm. readonly_tac.
Qed.

Lemma readonly_deriveKey_validate arguments :
  readonly (SubtleCrypto.deriveKey_validate arguments).
Proof.
  unfold SubtleCrypto.deriveKey_validate.
  pose proof readonly_checkDeriveAlgorithm. readonly_tac.
Qed.

Lemma readonly_cipher_validate arguments :
  readonly (SubtleCrypto.cipher_validate arguments).
Proof. unfold SubtleCrypto.cipher_validate. readonly_tac. Qed.

#[global] Hint Resolve readonly_checkDeriveAlgorithm readonly_importKey_validate
  readonly_deriveBits_validate readonly_deriveKey_validate
  readonly_cipher_validate : readonly.

(** ** [importKey]: the argument count *)

(** C7: every call to [importKey] with an argument count other than 5 fails
    with the argument-count error, whatever the arguments are; being the
    first check, it fails before anything reaches the Provider. *)
Theorem importKey_argument_count (arguments : list value) (P : Provider) (s : state) :
  length arguments ≠ 5 ->
  SubtleCrypto.importKey arguments P s
    = (Returns (Rejected (ExpectedArguments 5 (length arguments))), s)
  /\ ArgumentCountError (ExpectedArguments 5 (length arguments)).
Proof.
  intros Hlen. split; [| exact I].
  unfold SubtleCrypto.importKey, async.
  rewrite (bind_throws _ _ P s (ExpectedArguments 5 (length arguments)));
    [reflexivity | auto with readonly |].
  unfold SubtleCrypto.importKey_validate.
  destruct (Nat.eqb_spec (length arguments) 5) as [Heq | Hne]; [contradiction |].
  reflexivity.
Qed.

(** Five valid arguments and a sixth. *)
Lemma importKey_argument_count_witness :
  SubtleCrypto.importKey
    [VStr "raw"; Fixture.bytes; VStr "AES-GCM"; VBool false; Fixture.usages; VNull]
    Fixture.serving Fixture.start
    = (Returns (Rejected (ExpectedArguments 5 6)), Fixture.start)
  /\ ArgumentCountError (ExpectedArguments 5 6).
Proof.
  apply (importKey_argument_count
           [VStr "raw"; Fixture.bytes; VStr "AES-GCM"; VBool false; Fixture.usages; VNull]).
  simpl. lia.
Defined.

(** ** [getRandomValues] *)

(** C8, as stated, fails: a call with two arguments, the first a valid
    view, returns the view and raises nothing. *)
Lemma getRandomValues_second_argument_ignored :
  length [Fixture.whole; VNum one] ≠ 1
  /\ fst (Crypto.getRandomValues [Fixture.whole; VNum one] Fixture.serving Fixture.start)
     = Returns Fixture.whole.
Proof. split; [simpl; lia | reflexivity]. Qed.

(** C8, amended: [getRandomValues] requires at least one argument.  A call
    with none throws the not-enough-arguments error before anything reaches
    the Provider; a call with more than one behaves as the call with its
    first argument alone. *)
Theorem getRandomValues_arity (P : Provider) (s : state) :
  Crypto.getRandomValues [] P s
    = (Throws (NotEnoughArguments "Crypto.getRandomValues"), s)
  /\ ArgumentCountError (NotEnoughArguments "Crypto.getRandomValues")
  /\ forall typedArray rest,
       Crypto.getRandomValues (typedArray :: rest) P s
       = Crypto.getRandomValues [typedArray] P s.
Proof.
  split; [reflexivity |]. split; [exact I |].
  intros typedArray rest. reflexivity.
Qed.

(** C9: once the view is accepted, a Provider answer whose length differs
    from the view's [byteLength], shorter or longer, makes [getRandomValues]
    throw the not-enough-random-bytes error, and the heap (so the caller's
    view and its buffer) is as it was. *)
Theorem getRandomValues_length_mismatch
    (typedArray : value) (rest : list value) (vw : view) (P : Provider) (s : state) :
  isView (st_heap s) typedArray = Some vw ->
  isFloatArray (view_kind vw) = false ->
  length (randomBytes P (st_log s) (view_byteLength vw)) ≠ view_byteLength vw ->
  exists s',
    Crypto.getRandomValues (typedArray :: rest) P s = (Throws NotEnoughRandomBytes, s')
    /\ st_heap s' = st_heap s
    /\ viewBytes (st_heap s') vw = viewBytes (st_heap s) vw.
Proof.
  intros Hview Hfloat Hlen.
  unfold Crypto.getRandomValues. run. rewrite arg_0, Hview, Hfloat.
  unfold NativeCrypto.getRandomValues, NativeCrypto.nativeCall_getRandomValues. run.
  destruct (Nat.eqb_spec (length (randomBytes P (st_log s) (view_byteLength vw)))
              (view_byteLength vw)) as [Heq | Hne]; [contradiction |].
  simpl. eexists. split; [reflexivity |]. split; reflexivity.
Qed.

(** The Provider hands out three bytes for a view of two. *)
Lemma getRandomValues_length_mismatch_witness :
  exists s',
    Crypto.getRandomValues [Fixture.tail] Fixture.refusing Fixture.start
      = (Throws NotEnoughRandomBytes, s')
    /\ st_heap s' = st_heap Fixture.start
    /\ viewBytes (st_heap s') (View Uint8Array 0 2 2)
       = viewBytes (st_heap Fixture.start) (View Uint8Array 0 2 2).
Proof.
  apply (getRandomValues_length_mismatch Fixture.tail [] (View Uint8Array 0 2 2)
           Fixture.refusing Fixture.start).
  - reflexivity.
  - reflexivity.
  - simpl. lia.
Defined.

(** The view and type checks of [getRandomValues] come before the Provider:
    a float array, or a value that is no view, is refused with the state
    untouched. *)
Lemma getRandomValues_refuses (typedArray : value) (rest : list value)
    (P : Provider) (s : state) :
  match isView (st_heap s) typedArray with
  | Some vw => isFloatArray (view_kind vw) = true
  | None => True
  end ->
  Crypto.getRandomValues (typedArray :: rest) P s
    = (Throws (NotAcceptedArrayType typedArray), s).
Proof.
  intros H. unfold Crypto.getRandomValues. run. rewrite arg_0.
  destruct (isView (st_heap s) typedArray) as [vw |]; [rewrite H |]; reflexivity.
Qed.

(** What [getRandomValues] does with an answer of the right length: the
    bytes are written from the start of the view's buffer. *)
Lemma getRandomValues_writes_buffer_start (typedArray : value) (rest : list value)
    (vw : view) (bytes : list byte) (P : Provider) (s : state) :
  isView (st_heap s) typedArray = Some vw ->
  isFloatArray (view_kind vw) = false ->
  st_heap s !! view_buffer vw = Some (OArrayBuffer bytes) ->
  view_byteLength vw <= length bytes ->
  let values := randomBytes P (st_log s) (view_byteLength vw) in
  length values = view_byteLength vw ->
  exists s',
    Crypto.getRandomValues (typedArray :: rest) P s = (Returns typedArray, s')
    /\ bufferBytes (st_heap s') (view_buffer vw)
       = values ++ drop (view_byteLength vw) bytes.
Proof.
  intros Hview Hfloat Hbuf Hfit values Hlen.
  unfold Crypto.getRandomValues. run. rewrite arg_0, Hview, Hfloat.
  unfold NativeCrypto.getRandomValues, NativeCrypto.nativeCall_getRandomValues. run.
  fold values. rewrite Hlen, Nat.eqb_refl. simpl.
  unfold NativeCrypto.Uint8Array_set. run. rewrite Hbuf.
  destruct (Nat.ltb_spec (length bytes) (length values)) as [Hlt | Hge]; [lia |].
  simpl. eexists. split; [reflexivity |]. simpl.
  unfold bufferBytes. rewrite list_lookup_insert_eq.
  - rewrite Hlen. reflexivity.
  - apply lookup_lt_Some in Hbuf. exact Hbuf.
Qed.

(** For a view that starts where its buffer starts, these are the bytes
    the view shows. *)
Lemma getRandomValues_fills_view_at_offset_0 (typedArray : value) (rest : list value)
    (vw : view) (bytes : list byte) (P : Provider) (s : state) :
  isView (st_heap s) typedArray = Some vw ->
  isFloatArray (view_kind vw) = false ->
  st_heap s !! view_buffer vw = Some (OArrayBuffer bytes) ->
  view_byteLength vw <= length bytes ->
  view_byteOffset vw = 0 ->
  let values := randomBytes P (st_log s) (view_byteLength vw) in
  length values = view_byteLength vw ->
  exists s',
    Crypto.getRandomValues (typedArray :: rest) P s = (Returns typedArray, s')
    /\ viewBytes (st_heap s') vw = values.
Proof.
  intros Hview Hfloat Hbuf Hfit Hoff values Hlen.
  destruct (getRandomValues_writes_buffer_start typedArray rest vw bytes P s
              Hview Hfloat Hbuf Hfit Hlen) as (s' & Hrun & Hbytes).
  exists s'. split; [exact Hrun |].
  unfold viewBytes. rewrite Hbytes, Hoff. fold values. simpl.
  rewrite <- Hlen, drop_0. apply take_app_length.
Qed.

(** C5, at [tail = new Uint8Array(bytes, 2, 2)] over a zeroed buffer of
    four bytes, the Provider answering with the two bytes [aa aa]: the call
    returns the view it was given, but the random bytes have overwritten the
    first two bytes of the buffer, which the view does not cover, and the
    view still shows its two zero bytes. *)
Theorem getRandomValues_view_with_offset :
  exists s',
    Crypto.getRandomValues [Fixture.tail] Fixture.serving Fixture.start
      = (Returns Fixture.tail, s')
    /\ randomBytes Fixture.serving (st_log Fixture.start) 2 = [xaa; xaa]
    /\ bufferBytes (st_heap s') 0 = [xaa; xaa; x00; x00]
    /\ viewBytes (st_heap s') (View Uint8Array 0 2 2) = [x00; x00]
    /\ st_log s' = [Call (getRandomValues_call 2)].
Proof. eexists. repeat split. Qed.

(** ** [digest] *)

Lemma Set_has_spec (set : list string) (v : value) :
  Set_has set v = true <-> exists name, v = VStr name /\ In name set.
Proof.
  unfold Set_has, inb. destruct v as [| | | | name |]; simpl;
    try (split; [discriminate | intros (name' & Hv & _); discriminate]).
  rewrite existsb_exists. split.
  - intros (x & Hin & Heq). apply String.eqb_eq in Heq. subst x. eauto.
  - intros (name' & Hv & Hin). injection Hv as <-. exists name.
    split; [exact Hin | apply String.eqb_refl].
Qed.

Lemma truthy_getBuffer (h : heap) (v : value) :
  truthy (getBuffer h v) = isBufferLike h v.
Proof.
  unfold getBuffer, isBufferLike. destruct v as [| | | | | l]; try reflexivity.
  destruct (h !! l) as [[bytes | vw | | | |] |]; try reflexivity.
  destruct (isFloatArray (view_kind vw)); reflexivity.
Qed.

(** [digest] is [async]: whatever its arguments, the call returns a promise
    and throws nothing. *)
Lemma digest_never_throws (arguments : list value) (P : Provider) (s : state) :
  exists p s', SubtleCrypto.digest arguments P s = (Returns p, s').
Proof.
  unfold SubtleCrypto.digest, async.
  destruct (_ P s) as [[[a | d] | e] s1]; eauto.
  destruct (d P s1). eauto.
Qed.

(** C3: a call to [digest] with fewer than two arguments, with an algorithm
    that is not one of SHA-1, SHA-256, SHA-384, SHA-512, or with data that
    is neither a byte buffer nor a non-float view, returns a rejected
    promise: nothing is thrown to the caller and nothing reaches the
    Provider.  With two arguments or more and an unrecognized algorithm, the
    rejection is the error naming that algorithm. *)
Theorem digest_rejects_invalid_arguments
    (arguments : list value) (P : Provider) (s : state) :
  length arguments < 2
  \/ Set_has SubtleCrypto.validAlgorithms (arg 0 arguments) = false
  \/ isBufferLike (st_heap s) (arg 1 arguments) = false ->
  exists e,
    SubtleCrypto.digest arguments P s = (Returns (Rejected e), s)
    /\ (2 <= length arguments ->
        Set_has SubtleCrypto.validAlgorithms (arg 0 arguments) = false ->
        e = UnrecognizedName (arg 0 arguments) /\ AlgorithmNameError e).
Proof.
  intros Hinvalid. unfold SubtleCrypto.digest, async.
  destruct (Nat.ltb_spec (length arguments) 2) as [Hfew | Henough].
  { eexists. split; [reflexivity | intros; lia]. }
  destruct (Set_has SubtleCrypto.validAlgorithms (arg 0 arguments)) eqn:Hname.
  - destruct Hinvalid as [Hfew | [Hbad | Hdata]]; [lia | discriminate |].
    run. rewrite truthy_getBuffer, Hdata. simpl.
    eexists. split; [reflexivity | intros _ Hbad; discriminate].
  - simpl. eexists. split; [reflexivity |]. intros _ _. split; [reflexivity | exact I].
Qed.

(** [digest("MD5", bytes)] *)
Lemma digest_rejects_invalid_arguments_witness :
  exists e,
    SubtleCrypto.digest [VStr "MD5"; Fixture.bytes] Fixture.serving Fixture.start
      = (Returns (Rejected e), Fixture.start)
    /\ (2 <= length [VStr "MD5"; Fixture.bytes] ->
        Set_has SubtleCrypto.validAlgorithms (arg 0 [VStr "MD5"; Fixture.bytes]) = false ->
        e = UnrecognizedName (arg 0 [VStr "MD5"; Fixture.bytes]) /\ AlgorithmNameError e).
Proof.
  apply (digest_rejects_invalid_arguments [VStr "MD5"; Fixture.bytes]).
  right. left. reflexivity.
Defined.

(** ** The derive-algorithm gate *)

Lemma getProp_record (l : loc) (fields : list (string * value)) (k : string)
    (P : Provider) (s : state) :
  st_heap s !! l = Some (ORecord fields) ->
  getProp (VRef l) k P s = (Returns (lookupField k fields), s).
Proof. intros H. unfold getProp. run. rewrite H. reflexivity. Qed.

Lemma ownKeys_record (h : heap) (l : loc) (fields : list (string * value)) :
  h !! l = Some (ORecord fields) -> ownKeys h (VRef l) = map fst fields.
Proof. intros H. unfold ownKeys. rewrite H. reflexivity. Qed.





(** ** [deriveBits]: the transient key *)

Lemma cidOf_fresh (h : heap) (c : cid) (rest : list obj) :
  cidOf (h ++ O_CryptoKey c :: rest) (length h) = Some c.
Proof. unfold cidOf. rewrite list_lookup_middle; reflexivity. Qed.

Lemma getCid_fresh (h : heap) (c : cid) (rest : list obj) :
  getCid (h ++ O_CryptoKey c :: rest) (VRef (length h)) = Some c.
Proof. unfold getCid. rewrite list_lookup_middle; reflexivity. Qed.

Lemma not_In_filter_out (c : cid) (live : list cid) :
  ~ In c (List.filter (fun c' => negb (Nat.eqb c c')) live).
Proof.
  intros Hin. apply filter_In in Hin. destruct Hin as [_ Hneq].
  rewrite Nat.eqb_refl in Hneq. discriminate.
Qed.

(** C2: a call to [deriveBits] that passes validation creates its transient
    key [c], asks the Provider to derive into it, and disposes it on both
    exits.  When the Provider rejects the derive step, [c] is destroyed and
    then the call's promise rejects.  When the derive step succeeds, the
    export request is sent, [c] is destroyed, and only then does the
    Provider's answer to the export settle the call's promise.  Either way
    [c] is no longer live in the state in which the result exists. *)
Theorem deriveBits_disposes_transient_key
    (arguments : list value) (P : Provider) (s : state) :
  fst (SubtleCrypto.deriveBits_validate arguments P s) = Returns tt ->
  let c := st_next s in
  let n := length (st_heap s) in
  let derive := derive_call c (arg 0 arguments) (arg 1 arguments) (VRef (S n))
                  (VBool true) (VRef (S (S n))) in
  let export := subtleExportKey_call (VStr "raw") (Some c) in
  let derived := respond P (st_log s ++ [Create c; Call derive]) derive in
  exists p s',
    SubtleCrypto.deriveBits arguments P s = (Returns p, s')
    /\ ~ In c (st_live s')
    /\ match derived with
       | Failure reason =>
           p = Rejected (NativeError reason)
           /\ st_log s'
              = st_log s ++ [Create c; Call derive; Callback derive derived; Destroy c]
       | Success _ =>
           let exported :=
             respond P (st_log s ++ [Create c; Call derive; Callback derive derived;
                                     Call export; Destroy c]) export in
           (forall reason, exported = Failure reason -> p = Rejected (NativeError reason))
           /\ (forall result, exported = Success result -> exists buffer, p = Fulfilled buffer)
           /\ st_log s'
              = st_log s ++ [Create c; Call derive; Callback derive derived;
                             Call export; Destroy c; Callback export exported]
       end.
Proof.
  intros Hvalid. cbv zeta.
  unfold SubtleCrypto.deriveBits, async.
  rewrite (bind_passes _ _ P s tt); [| auto with readonly | exact Hvalid].
  unfold new__CryptoKey, try_finally, await_derive, awaitCall. run.
  rewrite <- !app_assoc. simpl. rewrite cidOf_fresh. simpl.
  rewrite <- !app_assoc. simpl.
  rewrite !length_app. simpl.
  replace (length (st_heap s) + 1) with (S (length (st_heap s))) by lia.
  replace (length (st_heap s) + 2) with (S (S (length (st_heap s)))) by lia.
  set (derive := derive_call (st_next s) (arg 0 arguments) (arg 1 arguments)
                   (VRef (S (length (st_heap s)))) (VBool true)
                   (VRef (S (S (length (st_heap s)))))).
  set (derived := respond P (st_log s ++ [Create (st_next s); Call derive]) derive).
  destruct derived as [result | reason].
  - unfold newPromise, NativeCrypto.subtleExportKey, dispose. run.
    rewrite getCid_fresh, cidOf_fresh. simpl. rewrite Nat.eqb_refl. simpl.
    unfold NativeCrypto.settle, answer. simpl.
    rewrite <- !app_assoc. simpl.
    destruct (respond P _ (subtleExportKey_call _ _)) as [[bytes |] | reason]; simpl.
    all: eexists; eexists; (split; [reflexivity |]);
      (split; [apply not_In_filter_out |]);
      (split; [intros r Hr; try discriminate; congruence |]);
      (split; [intros r Hr; try discriminate; eauto |]);
      rewrite <- ?app_assoc; reflexivity.
  - unfold dispose. simpl. rewrite cidOf_fresh. simpl. rewrite Nat.eqb_refl. simpl.
    eexists; eexists. split; [reflexivity |].
    split; [apply not_In_filter_out |].
    split; [reflexivity |]. rewrite <- ?app_assoc. reflexivity.
Qed.

(** [deriveBits("HKDF", key, 256)] against a Provider that refuses: the
    transient key 1 is gone when the promise has rejected. *)
Lemma deriveBits_disposes_transient_key_witness :
  fst (SubtleCrypto.deriveBits_validate [VStr "HKDF"; Fixture.hkdfKey; VNum 256%float]
         Fixture.refusing Fixture.start) = Returns tt
  /\ exists p s',
       SubtleCrypto.deriveBits [VStr "HKDF"; Fixture.hkdfKey; VNum 256%float]
         Fixture.refusing Fixture.start = (Returns p, s')
       /\ ~ In 1 (st_live s')
       /\ p = Rejected (NativeError "refused")
       /\ In (Destroy 1) (st_log s').
Proof.
  split; [reflexivity |].
  destruct (deriveBits_disposes_transient_key
              [VStr "HKDF"; Fixture.hkdfKey; VNum 256%float]
              Fixture.refusing Fixture.start eq_refl)
    as (p & s' & Hrun & Hlive & Hp & Hlog).
  exists p, s'. split; [exact Hrun |]. split; [exact Hlive |].
  split; [exact Hp |]. rewrite Hlog. simpl. auto.
Defined.

(** ** [encrypt] and [decrypt]: the tag length *)





(** ** [importKey] *)

Lemma checkType_passes (v : value) (T : JsType) (name : string)
    (P : Provider) (s : state) :
  fst (checkType v T name false P s) = Returns tt -> hasType (st_heap s) v T = true.
Proof.
  unfold checkType. run.
  destruct v; try discriminate; destruct (hasType _ _ _); try discriminate; reflexivity.
Qed.

Lemma checkType_run (v : value) (T : JsType) (name : string) (nullable : bool)
    (P : Provider) (s : state) :
  hasType (st_heap s) v T = true -> checkType v T name nullable P s = (Returns tt, s).
Proof.
  intros H. unfold checkType. run.
  destruct v; try (rewrite H; reflexivity).
  destruct T; discriminate.
Qed.

Lemma allowOnlyValues_passes (v : value) (allowedValues : list string)
    (valueName : string) (P : Provider) (s : state) :
  fst (allowOnlyValues v allowedValues valueName P s) = Returns tt ->
  Set_has allowedValues v = true.
Proof.
  unfold allowOnlyValues. destruct (Set_has allowedValues v); [reflexivity | discriminate].
Qed.

Lemma allowOnlyValues_run (v : value) (allowedValues : list string)
    (valueName : string) (P : Provider) (s : state) :
  Set_has allowedValues v = true ->
  allowOnlyValues v allowedValues valueName P s = (Returns tt, s).
Proof. intros H. unfold allowOnlyValues. rewrite H. reflexivity. Qed.

Lemma allowOnlyKeys_passes (target : value) (allowedKeys : list string)
    (P : Provider) (s : state) :
  fst (allowOnlyKeys target allowedKeys P s) = Returns tt ->
  List.find (fun k => negb (inb k allowedKeys)) (ownKeys (st_heap s) target) = None.
Proof.
  unfold allowOnlyKeys. run. destruct (List.find _ _); [discriminate | reflexivity].
Qed.

Ltac inv_bind H a Ha :=
  apply bind_returns_inv in H;
  [ destruct H as (a & Ha & H);
    match type of a with
    | unit => destruct a
    | _ => idtac
    end
  | readonly_tac ].

Lemma importKey_validate_passes (arguments : list value) (P : Provider) (s : state) :
  fst (SubtleCrypto.importKey_validate arguments P s) = Returns tt ->
  length arguments = 5
  /\ Set_has ["spki"; "pkcs8"; "raw"] (arg 0 arguments) = true
  /\ hasType (st_heap s) (getBuffer (st_heap s) (arg 1 arguments)) TArrayBuffer = true
  /\ ((exists name, arg 2 arguments = VStr name
                    /\ inb name ["ECDH"; "AES-GCM"; "HKDF"] = true)
      \/ (exists l fields, arg 2 arguments = VRef l
                           /\ st_heap s !! l = Some (ORecord fields)
                           /\ acceptedDescriptor fields))
  /\ hasType (st_heap s) (arg 3 arguments) TBoolean = true
  /\ hasType (st_heap s) (arg 4 arguments) TArray = true.
Proof.
  unfold SubtleCrypto.importKey_validate.
  destruct (Nat.eqb_spec (length arguments) 5) as [Hlen | Hlen]; [| discriminate].
  simpl. intros H.
  inv_bind H u1 Hformat. apply allowOnlyValues_passes in Hformat.
  inv_bind H h Hh. injection Hh as <-.
  inv_bind H u2 HkeyData. apply checkType_passes in HkeyData.
  inv_bind H u3 Halgorithm.
  inv_bind H u4 Hextractable. apply checkType_passes in Hextractable.
  apply checkType_passes in H.
  repeat split; try assumption.
  destruct (arg 2 arguments) as [| | b | n | name | l] eqn:Halg.
  1-4: inv_bind Halgorithm u5 Hobject; apply checkType_passes in Hobject;
       discriminate.
  - left. exists name. split; [reflexivity |].
    apply allowOnlyValues_passes in Halgorithm. exact Halgorithm.
  - right. inv_bind Halgorithm u5 Hobject.
    inv_bind Halgorithm name Hname.
    inv_bind Halgorithm u6 Hallowed. apply allowOnlyValues_passes in Hallowed.
    inv_bind Halgorithm name' Hname'.
    assert (name' = name) as -> by congruence.
    destruct (st_heap s !! l) as [[bytes | vw | elems frozen | fields | c | k] |] eqn:Hl.
    all: try (unfold getProp in Hname; revert Hname; run; rewrite Hl;
              try destruct (view_kind vw); simpl;
              intros Hname; injection Hname as <-; discriminate).
    rewrite (getProp_record l fields "name" P s Hl) in Hname.
    injection Hname as <-.
    exists l, fields. split; [reflexivity |]. split; [exact Hl |].
    unfold acceptedDescriptor.
    destruct (strictEqStr (lookupField "name" fields) "ECDH") eqn:Hecdh.
    + left. inv_bind Halgorithm u7 Hkeys. apply allowOnlyKeys_passes in Hkeys.
      rewrite (ownKeys_record _ _ _ Hl) in Hkeys.
      inv_bind Halgorithm namedCurve Hcurve.
      rewrite (getProp_record l fields "namedCurve" P s Hl) in Hcurve.
      injection Hcurve as <-. apply allowOnlyValues_passes in Halgorithm.
      split; [| split; [| exact Hkeys]].
      * destruct (lookupField "name" fields); try discriminate.
        apply String.eqb_eq in Hecdh. congruence.
      * apply Set_has_spec in Halgorithm. destruct Halgorithm as (x & Hx & [<- | []]).
        exact Hx.
    + right. apply allowOnlyKeys_passes in Halgorithm.
      rewrite (ownKeys_record _ _ _ Hl) in Halgorithm.
      split; [| exact Halgorithm].
      apply Set_has_spec in Hallowed.
      destruct Hallowed as (x & Hx & [<- | [<- | []]]); [| exact Hx].
      rewrite Hx in Hecdh. discriminate.
Qed.

Lemma hasType_Array (h : heap) (v : value) :
  hasType h v TArray = true ->
  exists l elems frozen, v = VRef l /\ h !! l = Some (OArray elems frozen).
Proof.
  unfold hasType. destruct v as [| | | | | l]; try discriminate.
  intros H. exists l.
  destruct (h !! l) as [[bytes | vw | elems frozen | fields | c | k] |] eqn:Hl;
    try discriminate.
  exists elems, frozen. split; reflexivity.
Qed.

Lemma lookup_extended (h : heap) (rest : list obj) (l : loc) (o : obj) :
  h !! l = Some o -> (h ++ rest) !! l = Some o.
Proof. intros H. apply lookup_app_l_Some. exact H. Qed.

Lemma insert_last (h : heap) (o o' : obj) :
  <[length h := o']> (h ++ [o]) = h ++ [o'].
Proof.
  rewrite insert_app_r_alt by lia. rewrite Nat.sub_diag. reflexivity.
Qed.

(** [algorithmInternal], for an algorithm that passed the checks of
    [importKey] in a heap that has only grown since. *)
Lemma algorithmInternal_accepted (h rest : list obj) (algorithm : value)
    (P : Provider) (s : state) :
  st_heap s = h ++ rest ->
  (exists name, algorithm = VStr name /\ inb name ["ECDH"; "AES-GCM"; "HKDF"] = true)
  \/ (exists l fields, algorithm = VRef l /\ h !! l = Some (ORecord fields)) ->
  SubtleCrypto.algorithmInternal algorithm P s = (Returns (collapsed h algorithm), s).
Proof.
  intros Hheap [(name & -> & Hname) | (l & fields & -> & Hl)].
  - unfold inb in Hname. simpl in Hname.
    repeat (apply orb_true_iff in Hname; destruct Hname as [Hname | Hname]);
      try discriminate; apply String.eqb_eq in Hname; subst name; reflexivity.
  - unfold SubtleCrypto.algorithmInternal, Object_keys, collapsed. run.
    rewrite Hl. unfold ownKeys. rewrite Hheap, (lookup_extended h rest l _ Hl).
    destruct fields as [| [k v] [| field fields]]; try reflexivity.
    simpl. unfold strictEqStr.
    destruct (String.eqb k "name") eqn:Hk; [| reflexivity].
    simpl. unfold getProp. run. rewrite Hheap, (lookup_extended h rest l _ Hl).
    simpl. rewrite Hk. reflexivity.
Qed.

(** The whole run of an [importKey] call that passes validation, by the
    Provider's answer to the import request. *)
Lemma importKey_run (arguments : list value) (P : Provider) (s : state) :
  fst (SubtleCrypto.importKey_validate arguments P s) = Returns tt ->
  exists lu elems frozen,
    arg 4 arguments = VRef lu
    /\ st_heap s !! lu = Some (OArray elems frozen)
    /\ let c := st_next s in
       let n := length (st_heap s) in
       let stored := collapsed (st_heap s) (arg 2 arguments) in
       let request := import_call c (arg 0 arguments) (arg 1 arguments) stored
                        (arg 3 arguments) (arg 4 arguments) in
       let imported := respond P (st_log s ++ [Create c; Call request]) request in
       SubtleCrypto.importKey arguments P s
       = match imported with
         | Success _ =>
             (Returns (Fulfilled (VRef (S (S n)))),
              State (st_heap s
                     ++ [O_CryptoKey c; OArray elems true;
                         OCryptoKey (KeyData n stored (arg 3 arguments) VUndefined
                                       (VRef (S n)))])
                (c :: st_live s) (S c)
                (st_log s ++ [Create c; Call request; Callback request imported]))
         | Failure reason =>
             (Returns (Rejected (NativeError reason)),
              State (st_heap s ++ [O_CryptoKey c]) (c :: st_live s) (S c)
                (st_log s ++ [Create c; Call request; Callback request imported]))
         end.
Proof.
  intros Hvalid.
  destruct (importKey_validate_passes arguments P s Hvalid)
    as (Hlen & Hformat & HkeyData & Halgorithm & Hextractable & Husages).
  destruct (hasType_Array _ _ Husages) as (lu & elems & frozen & Hu & Hlu).
  exists lu, elems, frozen. split; [exact Hu |]. split; [exact Hlu |]. cbv zeta.
  unfold SubtleCrypto.importKey, async.
  rewrite (bind_passes _ _ P s tt); [| auto with readonly | exact Hvalid].
  rewrite run_bind. unfold new__CryptoKey at 1. cbv beta iota zeta.
  rewrite run_bind.
  rewrite (algorithmInternal_accepted (st_heap s) [O_CryptoKey (st_next s)]);
    [| reflexivity
     | destruct Halgorithm as [Hs | (l & fields & Hl & Hobj & _)]; [left | right]; eauto ].
  rewrite run_bind. unfold await_import at 1. run.
  rewrite cidOf_fresh. unfold awaitCall. run.
  rewrite <- !app_assoc. simpl.
  destruct (respond P _ _) as [result | reason]; [| reflexivity].
  rewrite Hu. unfold Array_concat. run.
  rewrite (lookup_extended _ _ _ _ Hlu). simpl.
  unfold Object_freeze. run.
  rewrite list_lookup_middle by reflexivity. simpl.
  rewrite insert_last. rewrite !length_app. simpl.
  rewrite <- !app_assoc. simpl.
  rewrite ?Nat.add_1_r. reflexivity.
Qed.

Lemma hasType_Boolean (h : heap) (v : value) :
  hasType h v TBoolean = true -> exists b, v = VBool b.
Proof. unfold hasType. destruct v; try discriminate. eauto. Qed.

Lemma importKey_fulfilled_passed (arguments : list value) (P : Provider)
    (s s' : state) (key : value) :
  SubtleCrypto.importKey arguments P s = (Returns (Fulfilled key), s') ->
  fst (SubtleCrypto.importKey_validate arguments P s) = Returns tt.
Proof.
  intros Hrun.
  destruct (fst (SubtleCrypto.importKey_validate arguments P s)) as [[] | e] eqn:Hvalid;
    [reflexivity |].
  unfold SubtleCrypto.importKey, async in Hrun.
  rewrite (bind_throws _ _ P s e) in Hrun; [discriminate | auto with readonly | exact Hvalid].
Qed.

Lemma collapsed_name_only (h : heap) (l : loc) (X : value) :
  h !! l = Some (ORecord [("name", X)]) -> collapsed h (VRef l) = X.
Proof. intros H. unfold collapsed. rewrite H. reflexivity. Qed.

Lemma collapsed_ECDH (h : heap) (l : loc) (fields : list (string * value)) :
  h !! l = Some (ORecord fields) ->
  lookupField "namedCurve" fields = VStr "P-256" ->
  collapsed h (VRef l) = VRef l.
Proof.
  intros H Hcurve. unfold collapsed. rewrite H.
  destruct fields as [| [k v] [| field fields]]; try reflexivity.
  destruct (String.eqb k "name") eqn:Hk; [| reflexivity].
  apply String.eqb_eq in Hk. subst k. discriminate.
Qed.

(** C4: the key handle of a successful [importKey].  Its [extractable] is
    the caller's flag.  Its [usages] is a new array, at an address the heap
    did not have, holding the elements of the caller's sequence and frozen;
    the caller's own array is as it was.  A bare string is stored as it is;
    a descriptor [{name: X}] with no other field is stored as the bare [X],
    a string; an ECDH descriptor, so
    [{name: "ECDH", namedCurve: "P-256"}], is stored as the very object the
    caller passed, itself unchanged. *)
Theorem importKey_key_attributes
    (arguments : list value) (P : Provider) (s s' : state) (key : value) :
  SubtleCrypto.importKey arguments P s = (Returns (Fulfilled key), s') ->
  exists lk k,
    key = VRef lk
    /\ st_heap s' !! lk = Some (OCryptoKey k)
    /\ (key_extractable k = arg 3 arguments /\ exists b, arg 3 arguments = VBool b)
    /\ (exists lu elems frozen copy,
          arg 4 arguments = VRef lu
          /\ st_heap s !! lu = Some (OArray elems frozen)
          /\ key_usages k = VRef copy
          /\ st_heap s !! copy = None
          /\ st_heap s' !! copy = Some (OArray elems true)
          /\ st_heap s' !! lu = Some (OArray elems frozen))
    /\ (forall name, arg 2 arguments = VStr name -> key_algorithm k = VStr name)
    /\ (forall l X,
          arg 2 arguments = VRef l ->
          st_heap s !! l = Some (ORecord [("name", X)]) ->
          key_algorithm k = X /\ exists name, X = VStr name)
    /\ (forall l fields,
          arg 2 arguments = VRef l ->
          st_heap s !! l = Some (ORecord fields) ->
          lookupField "name" fields = VStr "ECDH" ->
          key_algorithm k = VRef l
          /\ lookupField "namedCurve" fields = VStr "P-256"
          /\ st_heap s' !! l = Some (ORecord fields)).
Proof.
  intros Hrun.
  pose proof (importKey_fulfilled_passed _ _ _ _ _ Hrun) as Hvalid.
  destruct (importKey_validate_passes _ _ _ Hvalid)
    as (_ & _ & _ & Halgorithm & Hextractable & _).
  destruct (importKey_run _ P s Hvalid) as (lu & elems & frozen & Hu & Hlu & Heq).
  cbv zeta in Heq. rewrite Heq in Hrun. clear Heq.
  destruct (respond P _ _) as [result | reason]; [| discriminate].
  injection Hrun as <- <-. simpl.
  do 2 eexists. split; [reflexivity |].
  split.
  { rewrite lookup_app_r by lia.
    replace (S (S (length (st_heap s))) - length (st_heap s)) with 2 by lia.
    reflexivity. }
  simpl. split; [split; [reflexivity | exact (hasType_Boolean _ _ Hextractable)] |].
  split.
  { exists lu, elems, frozen, (S (length (st_heap s))).
    split; [exact Hu |]. split; [exact Hlu |]. split; [reflexivity |].
    split; [apply lookup_ge_None; lia |].
    split; [| apply lookup_extended; exact Hlu].
    rewrite lookup_app_r by lia.
    replace (S (length (st_heap s)) - length (st_heap s)) with 1 by lia.
    reflexivity. }
  split; [intros name Hname; rewrite Hname; reflexivity |].
  split.
  - intros l X Hl Hobj. rewrite Hl. split; [apply collapsed_name_only; exact Hobj |].
    destruct Halgorithm as [(name & Hname & _) | (l' & fields & Hl' & Hobj' & Haccepted)];
      [congruence |].
    assert (l' = l) as -> by congruence.
    assert (fields = [("name", X)]) as -> by congruence.
    destruct Haccepted as [(Hname & _) | (Hname & _)]; simpl in Hname; eauto.
  - intros l fields Hl Hobj Hname. rewrite Hl.
    destruct Halgorithm as [(name & Hstr & _) | (l' & fields' & Hl' & Hobj' & Haccepted)];
      [congruence |].
    assert (l' = l) as -> by congruence.
    assert (fields' = fields) as -> by congruence.
    destruct Haccepted as [(_ & Hcurve & _) | (Hname' & _)]; [| congruence].
    split; [exact (collapsed_ECDH _ _ _ Hobj Hcurve) |].
    split; [exact Hcurve | apply lookup_extended; exact Hobj].
Qed.

(** [importKey("raw", bytes, {name: "AES-GCM"}, false, usages)] *)
Lemma importKey_key_attributes_witness :
  exists key s' lk k,
    SubtleCrypto.importKey
      [VStr "raw"; Fixture.bytes; Fixture.aesGcm; VBool false; Fixture.usages]
      Fixture.serving Fixture.start = (Returns (Fulfilled key), s')
    /\ key = VRef lk
    /\ st_heap s' !! lk = Some (OCryptoKey k)
    /\ key_extractable k = VBool false
    /\ key_algorithm k = VStr "AES-GCM".
Proof.
  eexists. eexists.
  destruct (importKey_key_attributes
              [VStr "raw"; Fixture.bytes; Fixture.aesGcm; VBool false; Fixture.usages]
              Fixture.serving Fixture.start _ _ eq_refl)
    as (lk & k & Hkey & Hk & (Hextractable & _) & _ & _ & Hcollapse & _).
  exists lk, k. split; [reflexivity |]. split; [exact Hkey |]. split; [exact Hk |].
  split; [exact Hextractable |].
  exact (proj1 (Hcollapse 3 (VStr "AES-GCM") eq_refl eq_refl)).
Defined.

(** A descriptor named HKDF never passes the checks of [importKey],
    whatever the other arguments are: the call rejects before anything
    reaches the Provider. *)
Lemma importKey_rejects_HKDF_descriptor (arguments : list value)
    (P : Provider) (s : state) :
  descriptorNamed (st_heap s) (arg 2 arguments) "HKDF" ->
  exists e, SubtleCrypto.importKey arguments P s = (Returns (Rejected e), s).
Proof.
  intros (l & fields & Hl & Hobj & Hname).
  destruct (fst (SubtleCrypto.importKey_validate arguments P s)) as [[] | e] eqn:Hvalid.
  - destruct (importKey_validate_passes _ _ _ Hvalid)
      as (_ & _ & _ & [(name & Hstr & _) | (l' & fields' & Hl' & Hobj' & Haccepted)] & _);
      [congruence |].
    assert (l' = l) as -> by congruence.
    assert (fields' = fields) as -> by congruence.
    destruct Haccepted as [(Hname' & _) | (Hname' & _)]; congruence.
  - exists e. unfold SubtleCrypto.importKey, async.
    rewrite (bind_throws _ _ P s e); [reflexivity | auto with readonly | exact Hvalid].
Qed.

(** C10: with the other four arguments valid, [importKey] lets the bare
    string ["HKDF"] through, and the import request it sends carries
    ["HKDF"]; it rejects every descriptor whose [name] is ["HKDF"] with the
    error of the check that allows ["ECDH"] and ["AES-GCM"] alone for
    [algorithm.name]; and a descriptor that passes is named ["ECDH"] or
    ["AES-GCM"]. *)
Theorem importKey_HKDF_bare_string_only
    (format keyData extractable keyUsages : value) (P : Provider) (s : state) :
  Set_has ["spki"; "pkcs8"; "raw"] format = true ->
  hasType (st_heap s) (getBuffer (st_heap s) keyData) TArrayBuffer = true ->
  hasType (st_heap s) extractable TBoolean = true ->
  hasType (st_heap s) keyUsages TArray = true ->
  (fst (SubtleCrypto.importKey_validate
          [format; keyData; VStr "HKDF"; extractable; keyUsages] P s) = Returns tt
   /\ let request := import_call (st_next s) format keyData (VStr "HKDF")
                       extractable keyUsages in
      exists r,
        st_log (snd (SubtleCrypto.importKey
                       [format; keyData; VStr "HKDF"; extractable; keyUsages] P s))
        = st_log s ++ [Create (st_next s); Call request; Callback request r])
  /\ (forall algorithm,
        descriptorNamed (st_heap s) algorithm "HKDF" ->
        SubtleCrypto.importKey [format; keyData; algorithm; extractable; keyUsages] P s
        = (Returns (Rejected (UnexpectedValue "algorithm.name" ["ECDH"; "AES-GCM"]
                                (VStr "HKDF"))), s))
  /\ (forall algorithm name,
        descriptorNamed (st_heap s) algorithm name ->
        fst (SubtleCrypto.importKey_validate
               [format; keyData; algorithm; extractable; keyUsages] P s) = Returns tt ->
        name = "ECDH" \/ name = "AES-GCM").
Proof.
  intros Hformat HkeyData Hextractable Husages.
  assert (fst (SubtleCrypto.importKey_validate
                 [format; keyData; VStr "HKDF"; extractable; keyUsages] P s)
          = Returns tt) as Hbare.
  { unfold SubtleCrypto.importKey_validate. simpl. autorewrite with args.
    rewrite run_bind, allowOnlyValues_run by exact Hformat.
    rewrite run_bind. unfold getHeap at 1. cbv beta iota.
    rewrite run_bind, checkType_run by exact HkeyData.
    rewrite run_bind, allowOnlyValues_run by reflexivity.
    rewrite run_bind, checkType_run by exact Hextractable.
    rewrite checkType_run by exact Husages. reflexivity. }
  split; [split; [exact Hbare |] |].
  - destruct (importKey_run _ P s Hbare) as (lu & elems & frozen & _ & _ & Heq).
    cbv zeta in Heq. rewrite Heq. autorewrite with args.
    change (collapsed (st_heap s) (VStr "HKDF")) with (VStr "HKDF").
    cbv zeta. destruct (respond P _ _) as [result | reason] eqn:Hr;
      eexists; simpl; reflexivity.
  - split.
    + intros algorithm (l & fields & -> & Hobj & Hname).
      unfold SubtleCrypto.importKey, async.
      rewrite (bind_throws _ _ P s
                 (UnexpectedValue "algorithm.name" ["ECDH"; "AES-GCM"] (VStr "HKDF")));
        [reflexivity | auto with readonly |].
      unfold SubtleCrypto.importKey_validate. simpl. autorewrite with args.
      rewrite run_bind, allowOnlyValues_run by exact Hformat.
      rewrite run_bind. unfold getHeap at 1. cbv beta iota.
      rewrite run_bind, checkType_run by exact HkeyData.
      rewrite run_bind, run_bind, checkType_run
        by (unfold hasType; rewrite Hobj; reflexivity).
      rewrite run_bind, (getProp_record _ _ _ _ _ Hobj), Hname.
      reflexivity.
    + intros algorithm name (l & fields & -> & Hobj & Hname) Hvalid.
      destruct (importKey_validate_passes _ _ _ Hvalid)
        as (_ & _ & _ & [(x & Hstr & _) | (l' & fields' & Hl' & Hobj' & Haccepted)] & _);
        [discriminate |].
      autorewrite with args in Hl'. injection Hl' as <-.
      assert (fields' = fields) as -> by congruence.
      destruct Haccepted as [(Hname' & _) | (Hname' & _)]; [left | right]; congruence.
Qed.

(** [importKey("raw", bytes, "HKDF", false, usages)] passes;
    [importKey("raw", bytes, {name: "HKDF"}, false, usages)] rejects. *)
Lemma importKey_HKDF_bare_string_only_witness :
  fst (SubtleCrypto.importKey_validate
         [VStr "raw"; Fixture.bytes; VStr "HKDF"; VBool false; Fixture.usages]
         Fixture.serving Fixture.start) = Returns tt
  /\ SubtleCrypto.importKey
       [VStr "raw"; Fixture.bytes; Fixture.hkdfDescriptor; VBool false; Fixture.usages]
       Fixture.serving Fixture.start
     = (Returns (Rejected (UnexpectedValue "algorithm.name" ["ECDH"; "AES-GCM"]
                             (VStr "HKDF"))), Fixture.start).
Proof.
  destruct (importKey_HKDF_bare_string_only (VStr "raw") Fixture.bytes (VBool false)
              Fixture.usages Fixture.serving Fixture.start
              eq_refl eq_refl eq_refl eq_refl)
    as ((Hbare & _) & Hdescriptor & _).
  split; [exact Hbare |].
  apply Hdescriptor. exists 9, [("name", VStr "HKDF")]. repeat split.
Defined.

(** ** The operations on the fixture *)

(** [importKey("spki", bytes, {name: "ECDH", namedCurve: "P-256"}, true,
    usages)]: the key keeps the descriptor object, and a frozen copy of the
    usages. *)
Example importKey_ECDH :
  exists s',
    SubtleCrypto.importKey
      [VStr "spki"; Fixture.bytes; Fixture.ecdhP256; VBool true; Fixture.usages]
      Fixture.serving Fixture.start = (Returns (Fulfilled (VRef 14)), s')
    /\ st_heap s' !! 14
       = Some (OCryptoKey (KeyData 12 Fixture.ecdhP256 (VBool true) VUndefined (VRef 13)))
    /\ st_heap s' !! 13 = Some (OArray [VStr "deriveKey"] true)
    /\ st_heap s' !! 4 = Some (OArray [VStr "deriveKey"] false).
Proof. eexists. repeat split. Qed.

(** [deriveBits("HKDF", key, 256)] when the Provider serves both requests:
    the transient key 1 is destroyed between the export request and its
    answer. *)
Example deriveBits_served :
  exists s',
    SubtleCrypto.deriveBits [VStr "HKDF"; Fixture.hkdfKey; VNum 256%float]
      Fixture.serving Fixture.start = (Returns (Fulfilled (VRef 15)), s')
    /\ st_heap s' !! 15 = Some (OArrayBuffer [x01; x02])
    /\ st_live s' = [0]
    /\ st_log s'
       = [ Create 1;
           Call (derive_call 1 (VStr "HKDF") Fixture.hkdfKey (VRef 13) (VBool true) (VRef 14));
           Callback (derive_call 1 (VStr "HKDF") Fixture.hkdfKey (VRef 13) (VBool true) (VRef 14))
             (Success (Some [x01; x02]));
           Call (subtleExportKey_call (VStr "raw") (Some 1));
           Destroy 1;
           Callback (subtleExportKey_call (VStr "raw") (Some 1))
             (Success (Some [x01; x02])) ].
Proof. eexists. repeat split. Qed.

(** [decrypt({name: "AES-GCM", iv, tagLength: 96}, key, whole)]: the tag
    length goes through as it is, and the view is replaced by its buffer. *)
Example decrypt_tagLength_96 :
  st_log (snd (SubtleCrypto.decrypt Fixture.noCoercion
                 [Fixture.aesGcm96; Fixture.hkdfKey; Fixture.whole]
                 Fixture.serving Fixture.start))
  = [ Call (subtleDecrypt_call (VStr "AES-GCM") (VRef 0) (VNum 96%float) (Some 0) (VRef 0));
      Callback (subtleDecrypt_call (VStr "AES-GCM") (VRef 0) (VNum 96%float) (Some 0) (VRef 0))
        (Success (Some [x01; x02])) ].
Proof. reflexivity. Qed.

(** [encrypt({name: "AES-GCM", iv}, key, bytes)]: no tag length, so 128. *)
Example encrypt_tagLength_absent :
  st_log (snd (SubtleCrypto.encrypt Fixture.noCoercion
                 [Fixture.aesGcmIv; Fixture.hkdfKey; Fixture.bytes]
                 Fixture.serving Fixture.start))
  = [ Call (subtleEncrypt_call (VStr "AES-GCM") (VRef 0) (VNum 128%float) (Some 0) (VRef 0));
      Callback (subtleEncrypt_call (VStr "AES-GCM") (VRef 0) (VNum 128%float) (Some 0) (VRef 0))
        (Success (Some [x01; x02])) ].
Proof. reflexivity. Qed.

(** [exportKey("raw", key)] asks for the native key behind the handle. *)
Example exportKey_raw :
  st_log (snd (SubtleCrypto.exportKey [VStr "raw"; Fixture.hkdfKey]
                 Fixture.serving Fixture.start))
  = [ Call (subtleExportKey_call (VStr "raw") (Some 0));
      Callback (subtleExportKey_call (VStr "raw") (Some 0)) (Success (Some [x01; x02])) ].
Proof. reflexivity. Qed.

(** * More of the facade *)

(** ** One request and its settlement *)

Lemma request_outcome (c : call) (P : Provider) (s : state) :
  let r := respond P (st_log s ++ [Call c]) c in
  request c P s
  = match r with
    | Success (Some bytes) =>
        (Returns (Fulfilled (VRef (length (st_heap s)))),
         State (st_heap s ++ [OArrayBuffer bytes]) (st_live s) (st_next s)
           (st_log s ++ [Call c; Callback c r]))
    | Success None =>
        (Returns (Fulfilled VUndefined),
         State (st_heap s) (st_live s) (st_next s) (st_log s ++ [Call c; Callback c r]))
    | Failure reason =>
        (Returns (Rejected (NativeError reason)),
         State (st_heap s) (st_live s) (st_next s) (st_log s ++ [Call c; Callback c r]))
    end.
Proof.
  cbv zeta. unfold request, NativeCrypto.settle, answer. simpl.
  destruct (respond P (st_log s ++ [Call c]) c) as [[bytes |] | reason]; simpl;
    rewrite <- app_assoc; reflexivity.
Qed.

Lemma onlyExtends_refl (s : state) : onlyExtends s s.
Proof.
  repeat split; exists []; symmetry; apply app_nil_r.
Qed.

Lemma onlyExtends_request (c : call) (P : Provider) (s : state) :
  onlyExtends s (snd (request c P s)).
Proof.
  pose proof (request_outcome c P s) as H. cbv zeta in H. rewrite H.
  destruct (respond P (st_log s ++ [Call c]) c) as [[bytes |] | reason]; simpl;
    repeat split; simpl; eauto; try (exists []; symmetry; apply app_nil_r).
Qed.

(** ** [exportKey] *)

Lemma checkType_throws (v : value) (T : JsType) (name : string)
    (P : Provider) (s : state) :
  hasType (st_heap s) v T = false ->
  checkType v T name false P s = (Throws (UnexpectedType name T v), s).
Proof.
  intros H. unfold checkType. run. destruct v; try (rewrite H; reflexivity); reflexivity.
Qed.

Lemma allowOnlyValues_throws (v : value) (allowedValues : list string)
    (valueName : string) (P : Provider) (s : state) :
  Set_has allowedValues v = false ->
  allowOnlyValues v allowedValues valueName P s
  = (Throws (UnexpectedValue valueName allowedValues v), s).
Proof. intros H. unfold allowOnlyValues. rewrite H. reflexivity. Qed.

(** [exportKey] sends its one request exactly when it has two arguments, a
    format that is ["raw"] or ["spki"], and a key handle; the request names
    the native key behind the handle.  Any other call rejects with the state
    as it was: with the argument-count error, else with the error of the
    format, else with the error of the key. *)
Lemma exportKey_run (arguments : list value) (P : Provider) (s : state) :
  let format := arg 0 arguments in
  let key := arg 1 arguments in
  SubtleCrypto.exportKey arguments P s
  = if negb (Nat.eqb (length arguments) 2)
    then (Returns (Rejected (ExpectedArguments 2 (length arguments))), s)
    else if negb (Set_has ["raw"; "spki"] format)
    then (Returns (Rejected (UnexpectedValue "format" ["raw"; "spki"] format)), s)
    else if negb (hasType (st_heap s) key TCryptoKey)
    then (Returns (Rejected (UnexpectedType "key" TCryptoKey key)), s)
    else request (subtleExportKey_call format (getCid (st_heap s) key)) P s.
Proof.
  cbv zeta. unfold SubtleCrypto.exportKey, async. rewrite run_bind.
  destruct (negb (Nat.eqb (length arguments) 2)); [reflexivity |].
  rewrite run_bind.
  destruct (Set_has ["raw"; "spki"] (arg 0 arguments)) eqn:Hformat; simpl.
  - rewrite allowOnlyValues_run by exact Hformat.
    destruct (hasType (st_heap s) (arg 1 arguments) TCryptoKey) eqn:Hkey; simpl.
    + rewrite checkType_run by exact Hkey.
      unfold newPromise, NativeCrypto.subtleExportKey, request. run. reflexivity.
    + rewrite checkType_throws by exact Hkey. reflexivity.
  - rewrite allowOnlyValues_throws by exact Hformat. reflexivity.
Qed.

(** What comes back from an accepted [exportKey]: the Provider's bytes in a
    buffer of their own, at an address the heap did not have, or the
    Provider's refusal as the rejection; the handle's native key stays
    live. *)
Theorem exportKey_outcome (format key : value) (P : Provider) (s : state) :
  Set_has ["raw"; "spki"] format = true ->
  hasType (st_heap s) key TCryptoKey = true ->
  let c := subtleExportKey_call format (getCid (st_heap s) key) in
  let r := respond P (st_log s ++ [Call c]) c in
  exists p s',
    SubtleCrypto.exportKey [format; key] P s = (Returns p, s')
    /\ st_live s' = st_live s
    /\ st_log s' = st_log s ++ [Call c; Callback c r]
    /\ (forall bytes, r = Success (Some bytes) ->
        p = Fulfilled (VRef (length (st_heap s)))
        /\ st_heap s' = st_heap s ++ [OArrayBuffer bytes])
    /\ (forall reason, r = Failure reason ->
        p = Rejected (NativeError reason) /\ st_heap s' = st_heap s).
Proof.
  intros Hformat Hkey. cbv zeta.
  pose proof (exportKey_run [format; key] P s) as Hrun. cbv zeta in Hrun.
  autorewrite with args in Hrun. simpl in Hrun. rewrite Hformat, Hkey in Hrun.
  simpl in Hrun. rewrite Hrun.
  pose proof (request_outcome (subtleExportKey_call format (getCid (st_heap s) key)) P s)
    as Hout. cbv zeta in Hout. rewrite Hout.
  destruct (respond P _ _) as [[bytes |] | reason]; do 2 eexists;
    (split; [reflexivity |]); simpl;
    (split; [reflexivity |]); (split; [reflexivity |]);
    split; intros x Hx; try discriminate; injection Hx as <-; split; reflexivity.
Qed.

Lemma exportKey_outcome_witness :
  exists p s',
    SubtleCrypto.exportKey [VStr "raw"; Fixture.hkdfKey] Fixture.serving Fixture.start
      = (Returns p, s')
    /\ p = Fulfilled (VRef 12)
    /\ st_heap s' = st_heap Fixture.start ++ [OArrayBuffer [x01; x02]].
Proof.
  destruct (exportKey_outcome (VStr "raw") Fixture.hkdfKey Fixture.serving Fixture.start
              eq_refl eq_refl) as (p & s' & Hrun & _ & _ & Hbytes & _).
  exists p, s'. split; [exact Hrun |]. exact (Hbytes [x01; x02] eq_refl).
Defined.

(** ** [digest] on valid arguments *)

Lemma digest_valid_eq (arguments : list value) (P : Provider) (s : state) :
  2 <= length arguments ->
  Set_has SubtleCrypto.validAlgorithms (arg 0 arguments) = true ->
  isBufferLike (st_heap s) (arg 1 arguments) = true ->
  SubtleCrypto.digest arguments P s
  = async (p ← newPromise (NativeCrypto.subtleDigest (arg 0 arguments) (arg 1 arguments));
           mret (Promise p)) P s.
Proof.
  intros Hlen Hname Hdata. unfold SubtleCrypto.digest.
  destruct (Nat.ltb_spec (length arguments) 2) as [Hfew | _]; [lia |].
  rewrite Hname. simpl. unfold async. rewrite run_bind. unfold getHeap at 1.
  cbv beta iota. rewrite truthy_getBuffer, Hdata. reflexivity.
Qed.

(** [digest] on valid arguments sends one request, carrying the algorithm
    name and, for a view, the buffer under the view.  A non-empty answer
    fulfils the promise with a buffer of its own holding the answer; an
    error answer rejects it with the Provider's reason; an answer that is
    empty or no buffer raises the internal type error inside the callback,
    and the promise is neither fulfilled nor rejected.  No object that
    existed is touched. *)
Theorem digest_valid_outcome (arguments : list value) (P : Provider) (s : state) :
  2 <= length arguments ->
  Set_has SubtleCrypto.validAlgorithms (arg 0 arguments) = true ->
  isBufferLike (st_heap s) (arg 1 arguments) = true ->
  let c := subtleDigest_call (arg 0 arguments)
             (NativeCrypto.bufferOrSelf (st_heap s) (arg 1 arguments)) in
  let r := respond P (st_log s ++ [Call c]) c in
  exists p s',
    SubtleCrypto.digest arguments P s = (Returns p, s')
    /\ st_live s' = st_live s /\ st_next s' = st_next s
    /\ match r with
       | Success (Some (b :: bytes)) =>
           p = Fulfilled (VRef (length (st_heap s)))
           /\ st_heap s' = st_heap s ++ [OArrayBuffer (b :: bytes)]
           /\ st_log s' = st_log s ++ [Call c; Callback c r]
       | Success _ =>
           p = Pending
           /\ st_heap s' = st_heap s
           /\ st_log s' = st_log s ++ [Call c; Callback c r; Uncaught InternalTypeError]
       | Failure reason =>
           p = Rejected (NativeError reason)
           /\ st_heap s' = st_heap s
           /\ st_log s' = st_log s ++ [Call c; Callback c r]
       end.
Proof.
  intros Hlen Hname Hdata. cbv zeta.
  rewrite (digest_valid_eq _ P s Hlen Hname Hdata).
  unfold async, newPromise, NativeCrypto.subtleDigest, answer. run.
  destruct (respond P _ _) as [[[| b bytes] |] | reason]; simpl;
    do 2 eexists; (split; [reflexivity |]); simpl;
    rewrite <- ?app_assoc; repeat split.
Qed.

(** [digest("SHA-256", whole)] against a Provider that answers nothing. *)
Lemma digest_valid_outcome_witness :
  exists s',
    SubtleCrypto.digest [VStr "SHA-256"; Fixture.whole]
      {| randomBytes := fun _ _ => []; respond := fun _ _ => Success (Some []) |}
      Fixture.start = (Returns Pending, s')
    /\ st_heap s' = st_heap Fixture.start
    /\ In (Uncaught InternalTypeError) (st_log s').
Proof.
  destruct (digest_valid_outcome [VStr "SHA-256"; Fixture.whole]
              {| randomBytes := fun _ _ => []; respond := fun _ _ => Success (Some []) |}
              Fixture.start (le_n 2) eq_refl eq_refl)
    as (p & s' & Hrun & _ & _ & Hp & Hheap & Hlog).
  exists s'. subst p. split; [exact Hrun |]. split; [exact Hheap |].
  rewrite Hlog. simpl. auto.
Defined.

Lemma subtleDigest_same_buffer (algorithm data data' : value) (P : Provider) (s : state) :
  NativeCrypto.bufferOrSelf (st_heap s) data = NativeCrypto.bufferOrSelf (st_heap s) data' ->
  NativeCrypto.subtleDigest algorithm data P s = NativeCrypto.subtleDigest algorithm data' P s.
Proof. intros H. unfold NativeCrypto.subtleDigest. run. rewrite H. reflexivity. Qed.

(** [digest] does not see the window of a view: two non-float views on one
    buffer, whatever their offsets and lengths, give the same run, request
    and result, and so does the buffer itself. *)
Theorem digest_ignores_view_window
    (algorithm data data' : value) (vw vw' : view) (P : Provider) (s : state) :
  Set_has SubtleCrypto.validAlgorithms algorithm = true ->
  isView (st_heap s) data = Some vw -> isFloatArray (view_kind vw) = false ->
  isView (st_heap s) data' = Some vw' -> isFloatArray (view_kind vw') = false ->
  view_buffer vw = view_buffer vw' ->
  SubtleCrypto.digest [algorithm; data] P s = SubtleCrypto.digest [algorithm; data'] P s
  /\ (forall bytes, st_heap s !! view_buffer vw = Some (OArrayBuffer bytes) ->
      SubtleCrypto.digest [algorithm; data] P s
      = SubtleCrypto.digest [algorithm; VRef (view_buffer vw)] P s).
Proof.
  intros Hname Hview Hfloat Hview' Hfloat' Hsame.
  assert (forall d w, isView (st_heap s) d = Some w -> isFloatArray (view_kind w) = false ->
                      isBufferLike (st_heap s) d = true) as Hlike.
  { intros d w Hd Hw. unfold isView in Hd. unfold isBufferLike.
    destruct d as [| | | | | l]; try discriminate.
    destruct (st_heap s !! l) as [[] |]; try discriminate.
    injection Hd as ->. rewrite Hw. reflexivity. }
  split.
  - rewrite !digest_valid_eq; autorewrite with args; simpl; eauto.
    unfold async, newPromise. rewrite !run_bind.
    rewrite (subtleDigest_same_buffer algorithm data data'); [reflexivity |].
    unfold NativeCrypto.bufferOrSelf. rewrite Hview, Hview', Hsame. reflexivity.
  - intros bytes Hbuffer.
    rewrite !digest_valid_eq; autorewrite with args; simpl; eauto.
    + unfold async, newPromise. rewrite !run_bind.
      rewrite (subtleDigest_same_buffer algorithm data (VRef (view_buffer vw)));
        [reflexivity |].
      unfold NativeCrypto.bufferOrSelf, isView. rewrite Hbuffer.
      fold (isView (st_heap s) data). rewrite Hview. reflexivity.
    + unfold isBufferLike. rewrite Hbuffer. reflexivity.
Qed.

(** The view of the last two bytes and the view of all four. *)
Lemma digest_ignores_view_window_witness :
  SubtleCrypto.digest [VStr "SHA-1"; Fixture.tail] Fixture.serving Fixture.start
  = SubtleCrypto.digest [VStr "SHA-1"; Fixture.whole] Fixture.serving Fixture.start.
Proof.
  exact (proj1 (digest_ignores_view_window (VStr "SHA-1") Fixture.tail Fixture.whole
                  (View Uint8Array 0 2 2) (View Uint8Array 0 0 4)
                  Fixture.serving Fixture.start
                  eq_refl eq_refl eq_refl eq_refl eq_refl eq_refl)).
Defined.

(** ** [encrypt] and [decrypt] *)

Lemma getProp_name_string (v : value) (x : string) (P : Provider) (s : state) :
  fst (getProp v "name" P s) = Returns (VStr x) ->
  exists l fields,
    v = VRef l /\ st_heap s !! l = Some (ORecord fields)
    /\ lookupField "name" fields = VStr x.
Proof.
  unfold getProp. run.
  destruct v as [| | b | n | name | l]; simpl; try discriminate.
  destruct (st_heap s !! l) as [[bytes | vw | elems frozen | fields | c | k] |] eqn:Hl;
    simpl; try discriminate.
  - destruct (view_kind vw); discriminate.
  - intros H. injection H as H. eauto.
Qed.

Lemma allowOnlyKeys_run (target : value) (allowedKeys : list string)
    (P : Provider) (s : state) :
  List.find (fun k => negb (inb k allowedKeys)) (ownKeys (st_heap s) target) = None ->
  allowOnlyKeys target allowedKeys P s = (Returns tt, s).
Proof. intros H. unfold allowOnlyKeys. run. rewrite H. reflexivity. Qed.

Lemma checkType_nullable_passes (v : value) (T : JsType) (name : string)
    (P : Provider) (s : state) :
  fst (checkType v T name true P s) = Returns tt ->
  v = VUndefined \/ hasType (st_heap s) v T = true.
Proof.
  unfold checkType. run.
  destruct v; auto; destruct (hasType _ _ _); auto; discriminate.
Qed.


Lemma hasType_Number (h : heap) (v : value) :
  hasType h v TNumber = true <-> exists n, v = VNum n.
Proof.
  unfold hasType. split.
  - destruct v; try discriminate. eauto.
  - intros (n & ->). reflexivity.
Qed.

Lemma cipher_validate_passes (arguments : list value) (P : Provider) (s : state) :
  fst (SubtleCrypto.cipher_validate arguments P s) = Returns tt ->
  length arguments = 3
  /\ acceptedCipherAlgorithm (st_heap s) (arg 0 arguments)
  /\ hasType (st_heap s) (arg 1 arguments) TCryptoKey = true
  /\ hasType (st_heap s) (getBuffer (st_heap s) (arg 2 arguments)) TArrayBuffer = true.
Proof.
  unfold SubtleCrypto.cipher_validate.
  destruct (Nat.eqb_spec (length arguments) 3) as [Hlen | Hlen]; [| discriminate].
  simpl. intros H.
  inv_bind H u1 Hkeys. apply allowOnlyKeys_passes in Hkeys.
  inv_bind H name Hname.
  inv_bind H u2 Hallowed. apply allowOnlyValues_passes in Hallowed.
  apply Set_has_spec in Hallowed. destruct Hallowed as (x & -> & [<- | []]).
  destruct (getProp_name_string _ _ P s Hname) as (l & fields & Hl & Hobj & Hfield).
  rewrite Hl in *.
  inv_bind H tagLength Htag.
  rewrite (getProp_record l fields "tagLength" P s Hobj) in Htag. injection Htag as <-.
  inv_bind H u3 Hnumber. apply checkType_nullable_passes in Hnumber.
  inv_bind H iv Hiv.
  rewrite (getProp_record l fields "iv" P s Hobj) in Hiv. injection Hiv as <-.
  inv_bind H h Hh. injection Hh as <-.
  inv_bind H u4 Hbuffer. apply checkType_passes in Hbuffer.
  inv_bind H u5 Hkey. apply checkType_passes in Hkey.
  inv_bind H h Hh. injection Hh as <-.
  apply checkType_passes in H.
  rewrite (ownKeys_record _ _ _ Hobj) in Hkeys.
  split; [exact Hlen |]. split; [| split; assumption].
  exists l, fields. repeat split; try assumption.
  destruct Hnumber as [Hundefined | Hnumber]; [left; exact Hundefined |].
  right. apply hasType_Number in Hnumber. exact Hnumber.
Qed.


Lemma getNativeObject_cid (h : heap) (key : value) :
  hasType h key TCryptoKey = true ->
  from_option (cidOf h) None (getNativeObject h key) = getCid h key.
Proof.
  unfold hasType, getNativeObject, getCid. destruct key as [| | | | | l]; try discriminate.
  destruct (h !! l) as [[] |]; try discriminate. reflexivity.
Qed.

Lemma bufferOrSelf_getBuffer (h : heap) (data : value) :
  hasType h (getBuffer h data) TArrayBuffer = true ->
  NativeCrypto.bufferOrSelf h data = getBuffer h data.
Proof.
  unfold NativeCrypto.bufferOrSelf, isView, getBuffer.
  destruct data as [| | | | | l]; try (unfold hasType; discriminate).
  destruct (h !! l) as [[bytes | vw | | | |] |]; try (unfold hasType; discriminate);
    try reflexivity.
  destruct (isFloatArray (view_kind vw)); [discriminate | reflexivity].
Qed.

(** For arguments that pass the checks, [encrypt] and [decrypt] each send
    one request, and the two requests carry the same five parameters: the
    name ["AES-GCM"], the buffer of [iv], the effective tag length, the
    native key behind the handle, and the buffer of the data.  Both buffers
    are byte buffers of the heap: of a view, its whole buffer is sent.  The
    tag length sent is a number, and never NaN. *)
Theorem cipher_requests_agree (ToNumber_other : heap -> value -> float)
    (arguments : list value) (P : Provider) (s : state) :
  fst (SubtleCrypto.cipher_validate arguments P s) = Returns tt ->
  exists iv tagLength data,
    hasType (st_heap s) iv TArrayBuffer = true
    /\ (exists n, tagLength = VNum n /\ PrimFloat.is_nan n = false)
    /\ hasType (st_heap s) data TArrayBuffer = true
    /\ data = getBuffer (st_heap s) (arg 2 arguments)
    /\ SubtleCrypto.encrypt ToNumber_other arguments P s
       = request (subtleEncrypt_call (VStr "AES-GCM") iv tagLength
                    (getCid (st_heap s) (arg 1 arguments)) data) P s
    /\ SubtleCrypto.decrypt ToNumber_other arguments P s
       = request (subtleDecrypt_call (VStr "AES-GCM") iv tagLength
                    (getCid (st_heap s) (arg 1 arguments)) data) P s.
Proof.
  intros Hvalid.
  destruct (cipher_validate_passes arguments P s Hvalid)
    as (Hlen & (l & fields & Hl & Hobj & Hkeys & Hname & Htag & Hiv) & Hkey & Hdata).
  exists (getBuffer (st_heap s) (lookupField "iv" fields)),
    (NativeCrypto.effectiveTagLength ToNumber_other (st_heap s)
       (lookupField "tagLength" fields)),
    (getBuffer (st_heap s) (arg 2 arguments)).
  split; [exact Hiv |].
  split.
  { unfold NativeCrypto.effectiveTagLength, NativeCrypto.isNaN.
    destruct Htag as [-> | (n & ->)]; simpl.
    - exists 128%float. split; reflexivity.
    - destruct (PrimFloat.is_nan n) eqn:Hnan.
      + exists 128%float. split; reflexivity.
      + exists n. split; [reflexivity | exact Hnan]. }
  split; [exact Hdata |]. split; [reflexivity |].
  split.
  - unfold SubtleCrypto.encrypt, async.
    rewrite (bind_passes _ _ P s tt); [| auto with readonly | exact Hvalid].
    unfold newPromise, NativeCrypto.subtleEncrypt. rewrite Hl.
    rewrite !run_bind, (getProp_record l fields "name" P s Hobj).
    rewrite !run_bind, (getProp_record l fields "iv" P s Hobj).
    rewrite !run_bind, (getProp_record l fields "tagLength" P s Hobj).
    rewrite Hname. unfold request. run. reflexivity.
  - unfold SubtleCrypto.decrypt, async.
    rewrite (bind_passes _ _ P s tt); [| auto with readonly | exact Hvalid].
    unfold newPromise, NativeCrypto.subtleDecrypt. rewrite Hl.
    rewrite !run_bind, (getProp_record l fields "name" P s Hobj).
    rewrite !run_bind, (getProp_record l fields "iv" P s Hobj).
    rewrite !run_bind, (getProp_record l fields "tagLength" P s Hobj).
    rewrite Hname. unfold request. run.
    rewrite (getNativeObject_cid _ _ Hkey), (bufferOrSelf_getBuffer _ _ Hdata).
    reflexivity.
Qed.

(** [encrypt] and [decrypt] of the view [tail]: both send the whole buffer. *)
Lemma cipher_requests_agree_witness :
  exists iv tagLength,
    SubtleCrypto.encrypt Fixture.noCoercion
      [Fixture.aesGcmIv; Fixture.hkdfKey; Fixture.tail] Fixture.serving Fixture.start
    = request (subtleEncrypt_call (VStr "AES-GCM") iv tagLength (Some 0) Fixture.bytes)
        Fixture.serving Fixture.start
    /\ SubtleCrypto.decrypt Fixture.noCoercion
         [Fixture.aesGcmIv; Fixture.hkdfKey; Fixture.tail] Fixture.serving Fixture.start
       = request (subtleDecrypt_call (VStr "AES-GCM") iv tagLength (Some 0) Fixture.bytes)
           Fixture.serving Fixture.start.
Proof.
  destruct (cipher_requests_agree Fixture.noCoercion
              [Fixture.aesGcmIv; Fixture.hkdfKey; Fixture.tail]
              Fixture.serving Fixture.start eq_refl)
    as (iv & tagLength & data & _ & _ & _ & Hdata & Hencrypt & Hdecrypt).
  exists iv, tagLength. subst data. split; [exact Hencrypt | exact Hdecrypt].
Defined.

(** ** Operations that only talk to the Provider *)

Lemma digest_invalid_untouched (arguments : list value) (P : Provider) (s : state) :
  length arguments < 2
  \/ Set_has SubtleCrypto.validAlgorithms (arg 0 arguments) = false
  \/ isBufferLike (st_heap s) (arg 1 arguments) = false ->
  snd (SubtleCrypto.digest arguments P s) = s.
Proof.
  intros Hinvalid. unfold SubtleCrypto.digest, async.
  destruct (Nat.ltb_spec (length arguments) 2) as [Hfew | Henough]; [reflexivity |].
  destruct (Set_has SubtleCrypto.validAlgorithms (arg 0 arguments)) eqn:Hname;
    [| reflexivity].
  destruct Hinvalid as [Hfew | [Hbad | Hdata]]; [lia | discriminate |].
  run. rewrite truthy_getBuffer, Hdata. reflexivity.
Qed.

Lemma onlyExtends_digest_valid (arguments : list value) (P : Provider) (s : state) :
  2 <= length arguments ->
  Set_has SubtleCrypto.validAlgorithms (arg 0 arguments) = true ->
  isBufferLike (st_heap s) (arg 1 arguments) = true ->
  onlyExtends s (snd (SubtleCrypto.digest arguments P s)).
Proof.
  intros Hlen Hname Hdata. rewrite (digest_valid_eq _ P s Hlen Hname Hdata).
  unfold async, newPromise, NativeCrypto.subtleDigest, answer. run.
  destruct (respond P _ _) as [[[| b bytes] |] | reason]; simpl;
    repeat split; simpl; rewrite <- ?app_assoc; eauto;
    exists []; symmetry; apply app_nil_r.
Qed.

Lemma getProp_cases (v : value) (k : string) (P : Provider) (s : state) :
  (exists x, getProp v k P s = (Returns x, s))
  \/ (exists e, getProp v k P s = (Throws e, s)).
Proof.
  rewrite (readonly_run _ P s (readonly_getProp v k)).
  destruct (fst (getProp v k P s)); eauto.
Qed.

Section Coercion.

Variable ToNumber_other : heap -> value -> float.

(** The promise [encrypt] makes once its checks have passed, whatever it is
    given. *)
Lemma onlyExtends_subtleEncrypt (algorithm key data : value) (P : Provider) (s : state) :
  onlyExtends s
    (snd (async (p ← newPromise (NativeCrypto.subtleEncrypt ToNumber_other algorithm key data);
                 mret (Promise p)) P s)).
Proof.
  unfold async, newPromise, NativeCrypto.subtleEncrypt. rewrite !run_bind.
  destruct (getProp_cases algorithm "name" P s) as [(name & ->) | (e & ->)];
    [| apply onlyExtends_refl].
  rewrite !run_bind.
  destruct (getProp_cases algorithm "iv" P s) as [(iv & ->) | (e & ->)];
    [| apply onlyExtends_refl].
  rewrite !run_bind.
  destruct (getProp_cases algorithm "tagLength" P s) as [(tagLength & ->) | (e & ->)];
    [| apply onlyExtends_refl].
  run.
  match goal with
  | |- context [NativeCrypto.settle ?c P ?s1] =>
      change (onlyExtends s (snd (request c P s)))
  end.
  apply onlyExtends_request.
Qed.

Lemma onlyExtends_subtleDecrypt (algorithm key data : value) (P : Provider) (s : state) :
  onlyExtends s
    (snd (async (p ← newPromise (NativeCrypto.subtleDecrypt ToNumber_other algorithm key data);
                 mret (Promise p)) P s)).
Proof.
  unfold async, newPromise, NativeCrypto.subtleDecrypt. rewrite !run_bind.
  destruct (getProp_cases algorithm "name" P s) as [(name & ->) | (e & ->)];
    [| apply onlyExtends_refl].
  rewrite !run_bind.
  destruct (getProp_cases algorithm "iv" P s) as [(iv & ->) | (e & ->)];
    [| apply onlyExtends_refl].
  rewrite !run_bind.
  destruct (getProp_cases algorithm "tagLength" P s) as [(tagLength & ->) | (e & ->)];
    [| apply onlyExtends_refl].
  run.
  match goal with
  | |- context [NativeCrypto.settle ?c P ?s1] =>
      change (onlyExtends s (snd (request c P s)))
  end.
  apply onlyExtends_request.
Qed.

End Coercion.

(** Whatever their arguments, [digest], [exportKey], [encrypt] and
    [decrypt] create and destroy no native object and change no object the
    heap had: the state after differs from the state before by new objects
    at the end of the heap and new events at the end of the log. *)
Theorem requests_only_extend (ToNumber_other : heap -> value -> float)
    (arguments : list value) (P : Provider) (s : state) :
  onlyExtends s (snd (SubtleCrypto.digest arguments P s))
  /\ onlyExtends s (snd (SubtleCrypto.exportKey arguments P s))
  /\ onlyExtends s (snd (SubtleCrypto.encrypt ToNumber_other arguments P s))
  /\ onlyExtends s (snd (SubtleCrypto.decrypt ToNumber_other arguments P s)).
Proof.
  split; [| split; [| split]].
  - destruct (Nat.ltb_spec (length arguments) 2) as [Hfew | Henough];
      [| destruct (Set_has SubtleCrypto.validAlgorithms (arg 0 arguments)) eqn:Hname;
         [destruct (isBufferLike (st_heap s) (arg 1 arguments)) eqn:Hdata |]].
    + rewrite digest_invalid_untouched by (left; exact Hfew). apply onlyExtends_refl.
    + apply onlyExtends_digest_valid; assumption.
    + rewrite digest_invalid_untouched by (right; right; exact Hdata).
      apply onlyExtends_refl.
    + rewrite digest_invalid_untouched by (right; left; exact Hname).
      apply onlyExtends_refl.
  - pose proof (exportKey_run arguments P s) as Hrun. cbv zeta in Hrun. rewrite Hrun.
    repeat (match goal with |- context [if ?b then _ else _] => destruct b end);
      try apply onlyExtends_refl.
    apply onlyExtends_request.
  - destruct (fst (SubtleCrypto.cipher_validate arguments P s)) as [[] | e] eqn:Hvalid.
    + unfold SubtleCrypto.encrypt.
      match goal with
      | |- context [async ?body] =>
          replace (async body P s)
            with (async (p ← newPromise (NativeCrypto.subtleEncrypt ToNumber_other
                                           (arg 0 arguments) (arg 1 arguments)
                                           (arg 2 arguments));
                         mret (Promise p)) P s)
      end; [apply onlyExtends_subtleEncrypt |].
      unfold async.
      rewrite (bind_passes _ _ P s tt); [reflexivity | auto with readonly | exact Hvalid].
    + unfold SubtleCrypto.encrypt, async.
      rewrite (bind_throws _ _ P s e); [| auto with readonly | exact Hvalid].
      apply onlyExtends_refl.
  - destruct (fst (SubtleCrypto.cipher_validate arguments P s)) as [[] | e] eqn:Hvalid.
    + unfold SubtleCrypto.decrypt.
      match goal with
      | |- context [async ?body] =>
          replace (async body P s)
            with (async (p ← newPromise (NativeCrypto.subtleDecrypt ToNumber_other
                                           (arg 0 arguments) (arg 1 arguments)
                                           (arg 2 arguments));
                         mret (Promise p)) P s)
      end; [apply onlyExtends_subtleDecrypt |].
      unfold async.
      rewrite (bind_passes _ _ P s tt); [reflexivity | auto with readonly | exact Hvalid].
    + unfold SubtleCrypto.decrypt, async.
      rewrite (bind_throws _ _ P s e); [| auto with readonly | exact Hvalid].
      apply onlyExtends_refl.
Qed.

(** ** The derive-algorithm gate, in full *)

Lemma strictEqStr_true (v : value) (x : string) :
  strictEqStr v x = true <-> v = VStr x.
Proof.
  unfold strictEqStr. split.
  - destruct v; try discriminate. intros H. apply String.eqb_eq in H. congruence.
  - intros ->. apply String.eqb_refl.
Qed.

(** [checkDeriveAlgorithm] passes exactly on the bare string ["HKDF"], on an
    ECDH descriptor whose [namedCurve] is ["P-256"] and whose [public] is a
    key handle, and on an HKDF descriptor whose [hash] is a string and whose
    [salt] and [info] are buffer-like; a descriptor may carry no key outside
    the six of the two families, and the fields of the other family are not
    looked at. *)
Lemma checkDeriveAlgorithm_iff (algorithm : value) (P : Provider) (s : state) :
  fst (checkDeriveAlgorithm algorithm P s) = Returns tt
  <-> acceptedDeriveAlgorithm (st_heap s) algorithm.
Proof.
  unfold checkDeriveAlgorithm, acceptedDeriveAlgorithm. split.
  - destruct (strictEqStr algorithm "HKDF") eqn:Hhkdf.
    { intros _. left. apply strictEqStr_true. exact Hhkdf. }
    destruct (strictEqStr algorithm "AES-GCM") eqn:Haes; [discriminate |].
    intros H. right.
    inv_bind H u1 Hkeys. apply allowOnlyKeys_passes in Hkeys.
    inv_bind H name Hname.
    inv_bind H u2 Hallowed. apply allowOnlyValues_passes in Hallowed.
    apply Set_has_spec in Hallowed. destruct Hallowed as (x & -> & Hx).
    destruct (getProp_name_string _ _ P s Hname) as (l & fields & -> & Hobj & Hfield).
    rewrite (ownKeys_record _ _ _ Hobj) in Hkeys.
    exists l, fields. split; [reflexivity |]. split; [exact Hobj |].
    split; [exact Hkeys |].
    inv_bind H name' Hname'.
    rewrite (getProp_record l fields "name" P s Hobj) in Hname'. injection Hname' as <-.
    rewrite Hfield in H.
    destruct Hx as [<- | [<- | []]].
    + left. change (strictEqStr (VStr "ECDH") "ECDH") with true in H. cbv iota in H.
      inv_bind H namedCurve Hcurve.
      rewrite (getProp_record l fields "namedCurve" P s Hobj) in Hcurve.
      injection Hcurve as <-.
      inv_bind H u3 Hp256. apply allowOnlyValues_passes in Hp256.
      apply Set_has_spec in Hp256. destruct Hp256 as (y & Hy & [<- | []]).
      inv_bind H public Hpublic.
      rewrite (getProp_record l fields "public" P s Hobj) in Hpublic.
      injection Hpublic as <-. apply checkType_passes in H.
      repeat split; assumption.
    + right. change (strictEqStr (VStr "HKDF") "ECDH") with false in H. cbv iota in H.
      inv_bind H name'' Hname''.
      rewrite (getProp_record l fields "name" P s Hobj) in Hname''.
      injection Hname'' as <-. rewrite Hfield in H.
      change (strictEqStr (VStr "HKDF") "HKDF") with true in H. cbv iota in H.
      inv_bind H hash Hhash.
      rewrite (getProp_record l fields "hash" P s Hobj) in Hhash. injection Hhash as <-.
      inv_bind H u3 Hstring. apply checkType_passes in Hstring.
      inv_bind H salt Hsalt.
      rewrite (getProp_record l fields "salt" P s Hobj) in Hsalt. injection Hsalt as <-.
      inv_bind H h Hh. injection Hh as <-.
      inv_bind H u4 Hsaltbuf. apply checkType_passes in Hsaltbuf.
      inv_bind H info Hinfo.
      rewrite (getProp_record l fields "info" P s Hobj) in Hinfo. injection Hinfo as <-.
      inv_bind H h Hh. injection Hh as <-.
      apply checkType_passes in H.
      repeat split; assumption.
  - intros [-> | (l & fields & -> & Hobj & Hkeys & Hfamily)]; [reflexivity |].
    change (strictEqStr (VRef l) "HKDF") with false.
    change (strictEqStr (VRef l) "AES-GCM") with false. cbv iota.
    rewrite run_bind, allowOnlyKeys_run
      by (rewrite (ownKeys_record _ _ _ Hobj); exact Hkeys).
    rewrite run_bind, (getProp_record l fields "name" P s Hobj).
    destruct Hfamily as [(Hname & Hcurve & Hpublic) | (Hname & Hhash & Hsalt & Hinfo)];
      rewrite Hname.
    + rewrite run_bind, allowOnlyValues_run by reflexivity.
      rewrite run_bind, (getProp_record l fields "name" P s Hobj), Hname.
      change (strictEqStr (VStr "ECDH") "ECDH") with true. cbv iota.
      rewrite run_bind, (getProp_record l fields "namedCurve" P s Hobj), Hcurve.
      rewrite run_bind, allowOnlyValues_run by reflexivity.
      rewrite run_bind, (getProp_record l fields "public" P s Hobj).
      rewrite checkType_run by exact Hpublic. reflexivity.
    + rewrite run_bind, allowOnlyValues_run by reflexivity.
      rewrite run_bind, (getProp_record l fields "name" P s Hobj), Hname.
      change (strictEqStr (VStr "HKDF") "ECDH") with false. cbv iota.
      rewrite run_bind, (getProp_record l fields "name" P s Hobj), Hname.
      change (strictEqStr (VStr "HKDF") "HKDF") with true. cbv iota.
      rewrite run_bind, (getProp_record l fields "hash" P s Hobj).
      rewrite run_bind, checkType_run by exact Hhash.
      rewrite run_bind, (getProp_record l fields "salt" P s Hobj).
      rewrite run_bind. unfold getHeap at 1. cbv beta iota.
      rewrite run_bind, checkType_run by exact Hsalt.
      rewrite run_bind, (getProp_record l fields "info" P s Hobj).
      rewrite run_bind. unfold getHeap at 1. cbv beta iota.
      rewrite checkType_run by exact Hinfo. reflexivity.
Qed.

(** ** [deriveBits], in full *)

Lemma filter_out_absent (c : cid) (live : list cid) :
  ~ In c live -> List.filter (fun c' => negb (Nat.eqb c c')) live = live.
Proof.
  induction live as [| c' live IH]; intros Hnot; [reflexivity |].
  simpl. destruct (Nat.eqb_spec c c') as [-> | Hne].
  - exfalso. apply Hnot. left. reflexivity.
  - simpl. rewrite IH; [reflexivity |]. intros Hin. apply Hnot. right. exact Hin.
Qed.

(** The whole run of a [deriveBits] call that passes validation, by the
    Provider's answer to the derive request. *)
Lemma deriveBits_run (arguments : list value) (P : Provider) (s : state) :
  fst (SubtleCrypto.deriveBits_validate arguments P s) = Returns tt ->
  let c := st_next s in
  let n := length (st_heap s) in
  let objects := [O_CryptoKey c;
                  ORecord [("length", arg 2 arguments); ("name", VStr "AES-GCM")];
                  OArray [] false] in
  let live := List.filter (fun c' => negb (Nat.eqb c c')) (st_live s) in
  let derive := derive_call c (arg 0 arguments) (arg 1 arguments) (VRef (S n))
                  (VBool true) (VRef (S (S n))) in
  let export := subtleExportKey_call (VStr "raw") (Some c) in
  let derived := respond P (st_log s ++ [Create c; Call derive]) derive in
  SubtleCrypto.deriveBits arguments P s
  = match derived with
    | Failure reason =>
        (Returns (Rejected (NativeError reason)),
         State (st_heap s ++ objects) live (S c)
           (st_log s ++ [Create c; Call derive; Callback derive derived; Destroy c]))
    | Success _ =>
        let (p, s') :=
          NativeCrypto.settle export P
            (State (st_heap s ++ objects) live (S c)
               (st_log s ++ [Create c; Call derive; Callback derive derived;
                             Call export; Destroy c])) in
        (Returns p, s')
    end.
Proof.
  intros Hvalid. cbv zeta.
  unfold SubtleCrypto.deriveBits, async.
  rewrite (bind_passes _ _ P s tt); [| auto with readonly | exact Hvalid].
  unfold new__CryptoKey, try_finally, await_derive, awaitCall. run.
  rewrite <- !app_assoc. simpl. rewrite cidOf_fresh. simpl.
  rewrite <- !app_assoc. simpl.
  rewrite !length_app. simpl.
  replace (length (st_heap s) + 1) with (S (length (st_heap s))) by lia.
  replace (length (st_heap s) + 2) with (S (S (length (st_heap s)))) by lia.
  set (derive := derive_call (st_next s) (arg 0 arguments) (arg 1 arguments)
                   (VRef (S (length (st_heap s)))) (VBool true)
                   (VRef (S (S (length (st_heap s)))))).
  set (derived := respond P (st_log s ++ [Create (st_next s); Call derive]) derive).
  destruct derived as [result | reason].
  - unfold newPromise, NativeCrypto.subtleExportKey, dispose. run.
    rewrite getCid_fresh, cidOf_fresh. simpl. rewrite Nat.eqb_refl. simpl.
    rewrite <- !app_assoc. simpl. reflexivity.
  - unfold dispose. simpl. rewrite cidOf_fresh. simpl. rewrite Nat.eqb_refl. simpl.
    rewrite <- !app_assoc. reflexivity.
Qed.

Lemma settle_outcome (c : call) (P : Provider) (s : state) :
  let r := respond P (st_log s) c in
  NativeCrypto.settle c P s
  = match r with
    | Success (Some bytes) =>
        (Fulfilled (VRef (length (st_heap s))),
         State (st_heap s ++ [OArrayBuffer bytes]) (st_live s) (st_next s)
           (st_log s ++ [Callback c r]))
    | Success None =>
        (Fulfilled VUndefined,
         State (st_heap s) (st_live s) (st_next s) (st_log s ++ [Callback c r]))
    | Failure reason =>
        (Rejected (NativeError reason),
         State (st_heap s) (st_live s) (st_next s) (st_log s ++ [Callback c r]))
    end.
Proof.
  cbv zeta. unfold NativeCrypto.settle, answer. simpl.
  destruct (respond P (st_log s) c) as [[bytes |] | reason]; reflexivity.
Qed.

Lemma onlyExtends_settle (c : call) (P : Provider) (s : state) :
  onlyExtends s (snd (NativeCrypto.settle c P s)).
Proof.
  pose proof (settle_outcome c P s) as H. cbv zeta in H. rewrite H.
  destruct (respond P (st_log s) c) as [[bytes |] | reason]; simpl;
    repeat split; simpl; eauto; exists []; symmetry; apply app_nil_r.
Qed.

(** What [deriveBits] asks of the Provider, and what it returns.  The derive
    request names a new object [{length, name: "AES-GCM"}] with the caller's
    [length], asks for an extractable key, and gives it an empty array of
    usages; both objects are new in the heap.  When the derive step and the
    export both succeed with bytes, the promise is fulfilled by a new buffer
    holding the exported bytes, and the heap is the caller's heap followed
    by the transient key, the two objects and that buffer. *)
Theorem deriveBits_derives_then_exports
    (arguments : list value) (P : Provider) (s : state) :
  fst (SubtleCrypto.deriveBits_validate arguments P s) = Returns tt ->
  let c := st_next s in
  let n := length (st_heap s) in
  let objects := [O_CryptoKey c;
                  ORecord [("length", arg 2 arguments); ("name", VStr "AES-GCM")];
                  OArray [] false] in
  let derive := derive_call c (arg 0 arguments) (arg 1 arguments) (VRef (S n))
                  (VBool true) (VRef (S (S n))) in
  let export := subtleExportKey_call (VStr "raw") (Some c) in
  let derived := respond P (st_log s ++ [Create c; Call derive]) derive in
  let exported :=
    respond P (st_log s ++ [Create c; Call derive; Callback derive derived;
                            Call export; Destroy c]) export in
  exists p s',
    SubtleCrypto.deriveBits arguments P s = (Returns p, s')
    /\ (exists rest, st_heap s' = st_heap s ++ objects ++ rest)
    /\ (exists events, st_log s' = st_log s ++ [Create c; Call derive] ++ events)
    /\ (forall result bytes,
          derived = Success result -> exported = Success (Some bytes) ->
          p = Fulfilled (VRef (S (S (S n))))
          /\ st_heap s' = st_heap s ++ objects ++ [OArrayBuffer bytes])
    /\ (forall result reason,
          derived = Success result -> exported = Failure reason ->
          p = Rejected (NativeError reason) /\ st_heap s' = st_heap s ++ objects).
Proof.
  intros Hvalid. cbv zeta.
  pose proof (deriveBits_run arguments P s Hvalid) as Hrun. cbv zeta in Hrun.
  rewrite Hrun. clear Hrun.
  destruct (respond P (st_log s ++ [Create (st_next s); Call _]) _) as [result | reason].
  - rewrite settle_outcome. cbv zeta. simpl.
    destruct (respond P _ (subtleExportKey_call _ _)) as [[bytes |] | reason]; simpl.
    + do 2 eexists. split; [reflexivity |]. simpl.
      split; [exists [OArrayBuffer bytes]; rewrite <- app_assoc; reflexivity |].
      split; [eexists; rewrite <- app_assoc; simpl; reflexivity |].
      split; intros x y Hx Hy; [| discriminate].
      injection Hy as <-. split; [| rewrite <- app_assoc; reflexivity].
      rewrite length_app. simpl.
      replace (length (st_heap s) + 3) with (S (S (S (length (st_heap s))))) by lia.
      reflexivity.
    + do 2 eexists. split; [reflexivity |]. simpl.
      split; [exists []; reflexivity |].
      split; [eexists; rewrite <- app_assoc; simpl; reflexivity |].
      split; intros x y Hx Hy; discriminate.
    + do 2 eexists. split; [reflexivity |]. simpl.
      split; [exists []; reflexivity |].
      split; [eexists; rewrite <- app_assoc; simpl; reflexivity |].
      split; intros x y Hx Hy; [discriminate |].
      injection Hy as <-. split; reflexivity.
  - do 2 eexists. split; [reflexivity |]. simpl.
    split; [exists []; reflexivity |].
    split; [eexists; simpl; reflexivity |].
    split; intros x y Hx; discriminate.
Qed.

(** [deriveBits("HKDF", key, 256)], served. *)
Lemma deriveBits_derives_then_exports_witness :
  exists p s',
    SubtleCrypto.deriveBits [VStr "HKDF"; Fixture.hkdfKey; VNum 256%float]
      Fixture.serving Fixture.start = (Returns p, s')
    /\ p = Fulfilled (VRef 15)
    /\ st_heap s'
       = st_heap Fixture.start
         ++ [O_CryptoKey 1;
             ORecord [("length", VNum 256%float); ("name", VStr "AES-GCM")];
             OArray [] false]
         ++ [OArrayBuffer [x01; x02]].
Proof.
  destruct (deriveBits_derives_then_exports
              [VStr "HKDF"; Fixture.hkdfKey; VNum 256%float]
              Fixture.serving Fixture.start eq_refl)
    as (p & s' & Hrun & _ & _ & Hserved & _).
  exists p, s'. split; [exact Hrun |].
  exact (Hserved (Some [x01; x02]) [x01; x02] eq_refl eq_refl).
Defined.

(** [deriveBits] leaves the set of live native objects as it found it,
    whatever its arguments and whatever the Provider answers, as long as the
    id it is about to be given is not in use; and it changes no object the
    heap had. *)
Theorem deriveBits_keeps_live_set (arguments : list value) (P : Provider) (s : state) :
  ~ In (st_next s) (st_live s) ->
  st_live (snd (SubtleCrypto.deriveBits arguments P s)) = st_live s
  /\ exists objects,
       st_heap (snd (SubtleCrypto.deriveBits arguments P s)) = st_heap s ++ objects.
Proof.
  intros Hfresh.
  destruct (fst (SubtleCrypto.deriveBits_validate arguments P s)) as [[] | e] eqn:Hvalid.
  - pose proof (deriveBits_run arguments P s Hvalid) as Hrun. cbv zeta in Hrun.
    rewrite Hrun. clear Hrun. rewrite (filter_out_absent _ _ Hfresh).
    destruct (respond P (st_log s ++ [Create (st_next s); Call _]) _) as [result | reason].
    + match goal with
      | |- context [NativeCrypto.settle ?c P ?s1] =>
          pose proof (onlyExtends_settle c P s1) as (Hlive & _ & (rest & Hheap) & _);
          destruct (NativeCrypto.settle c P s1) as [p s']
      end.
      simpl in *. split; [exact Hlive |].
      rewrite Hheap, <- app_assoc. eauto.
    + simpl. split; [reflexivity | eauto].
  - unfold SubtleCrypto.deriveBits, async.
    rewrite (bind_throws _ _ P s e); [| auto with readonly | exact Hvalid].
    simpl. split; [reflexivity |]. exists []. symmetry. apply app_nil_r.
Qed.

Lemma deriveBits_keeps_live_set_witness :
  st_live (snd (SubtleCrypto.deriveBits [VStr "HKDF"; Fixture.hkdfKey; VNum 256%float]
                  Fixture.serving Fixture.start)) = [0].
Proof.
  refine (proj1 (deriveBits_keeps_live_set
                   [VStr "HKDF"; Fixture.hkdfKey; VNum 256%float]
                   Fixture.serving Fixture.start _)).
  simpl. intros [H | []]. discriminate.
Defined.

(** ** [deriveKey], in full *)

Lemma deriveKey_validate_passes (arguments : list value) (P : Provider) (s : state) :
  fst (SubtleCrypto.deriveKey_validate arguments P s) = Returns tt ->
  length arguments = 5
  /\ acceptedDeriveAlgorithm (st_heap s) (arg 0 arguments)
  /\ hasType (st_heap s) (arg 1 arguments) TCryptoKey = true
  /\ (exists l fields,
        arg 2 arguments = VRef l /\ st_heap s !! l = Some (ORecord fields)
        /\ keysWithin ["name"; "length"] fields
        /\ lookupField "name" fields = VStr "AES-GCM"
        /\ exists n, lookupField "length" fields = VNum n)
  /\ hasType (st_heap s) (arg 3 arguments) TBoolean = true
  /\ hasType (st_heap s) (arg 4 arguments) TArray = true.
Proof.
  unfold SubtleCrypto.deriveKey_validate.
  destruct (Nat.eqb_spec (length arguments) 5) as [Hlen | Hlen]; [| discriminate].
  simpl. intros H.
  inv_bind H u1 Hgate. apply checkDeriveAlgorithm_iff in Hgate.
  inv_bind H u2 Hkeys. apply allowOnlyKeys_passes in Hkeys.
  inv_bind H name Hname.
  inv_bind H u3 Hallowed. apply allowOnlyValues_passes in Hallowed.
  apply Set_has_spec in Hallowed. destruct Hallowed as (x & -> & [<- | []]).
  destruct (getProp_name_string _ _ P s Hname) as (l & fields & Hl & Hobj & Hfield).
  rewrite Hl in *.
  inv_bind H len Hlength.
  rewrite (getProp_record l fields "length" P s Hobj) in Hlength. injection Hlength as <-.
  inv_bind H u4 Hnumber. apply checkType_passes in Hnumber.
  apply hasType_Number in Hnumber.
  inv_bind H u5 Hkey. apply checkType_passes in Hkey.
  inv_bind H u6 Hextractable. apply checkType_passes in Hextractable.
  apply checkType_passes in H.
  rewrite (ownKeys_record _ _ _ Hobj) in Hkeys.
  repeat split; try assumption.
  exists l, fields. repeat split; assumption.
Qed.

(** The whole run of a [deriveKey] call that passes validation, by the
    Provider's answer to the derive request. *)
Lemma deriveKey_run (arguments : list value) (P : Provider) (s : state) :
  fst (SubtleCrypto.deriveKey_validate arguments P s) = Returns tt ->
  exists lu elems frozen,
    arg 4 arguments = VRef lu
    /\ st_heap s !! lu = Some (OArray elems frozen)
    /\ let c := st_next s in
       let n := length (st_heap s) in
       let derive := derive_call c (arg 0 arguments) (arg 1 arguments) (arg 2 arguments)
                       (arg 3 arguments) (arg 4 arguments) in
       let derived := respond P (st_log s ++ [Create c; Call derive]) derive in
       SubtleCrypto.deriveKey arguments P s
       = match derived with
         | Success _ =>
             (Returns (Fulfilled (VRef (S (S n)))),
              State (st_heap s
                     ++ [O_CryptoKey c; OArray elems true;
                         OCryptoKey (KeyData n (arg 0 arguments) (arg 3 arguments)
                                       (VStr "secret") (VRef (S n)))])
                (c :: st_live s) (S c)
                (st_log s ++ [Create c; Call derive; Callback derive derived]))
         | Failure reason =>
             (Returns (Rejected (NativeError reason)),
              State (st_heap s ++ [O_CryptoKey c]) (c :: st_live s) (S c)
                (st_log s ++ [Create c; Call derive; Callback derive derived]))
         end.
Proof.
  intros Hvalid.
  destruct (deriveKey_validate_passes arguments P s Hvalid)
    as (_ & _ & _ & _ & _ & Husages).
  destruct (hasType_Array _ _ Husages) as (lu & elems & frozen & Hu & Hlu).
  exists lu, elems, frozen. split; [exact Hu |]. split; [exact Hlu |]. cbv zeta.
  unfold SubtleCrypto.deriveKey, async.
  rewrite (bind_passes _ _ P s tt); [| auto with readonly | exact Hvalid].
  rewrite run_bind. unfold new__CryptoKey at 1. cbv beta iota zeta.
  rewrite run_bind. unfold await_derive at 1. run.
  rewrite cidOf_fresh. unfold awaitCall. run.
  rewrite <- !app_assoc. simpl.
  destruct (respond P _ _) as [result | reason]; [| reflexivity].
  rewrite Hu. unfold Array_concat. run.
  rewrite (lookup_extended _ _ _ _ Hlu). simpl.
  unfold Object_freeze. run.
  rewrite list_lookup_middle by reflexivity. simpl.
  rewrite insert_last. rewrite !length_app. simpl.
  rewrite <- !app_assoc. simpl.
  rewrite ?Nat.add_1_r. reflexivity.
Qed.

(** The key handle of a successful [deriveKey]: its [type] is ["secret"];
    its [algorithm] is the algorithm the derivation was asked with, as the
    caller passed it (the string ["HKDF"], or the very descriptor object),
    and not the [derivedKeyAlgorithm]; its [extractable] is the caller's
    flag; its [usages] is a new frozen array with the caller's elements,
    the caller's array being as it was. *)
Theorem deriveKey_key_attributes
    (arguments : list value) (P : Provider) (s s' : state) (key : value) :
  SubtleCrypto.deriveKey arguments P s = (Returns (Fulfilled key), s') ->
  exists lk k,
    key = VRef lk
    /\ st_heap s !! lk = None
    /\ st_heap s' !! lk = Some (OCryptoKey k)
    /\ key_type k = VStr "secret"
    /\ key_algorithm k = arg 0 arguments
    /\ key_extractable k = arg 3 arguments
    /\ cidOf (st_heap s') (key_native k) = Some (st_next s)
    /\ exists lu elems frozen copy,
         arg 4 arguments = VRef lu
         /\ st_heap s !! lu = Some (OArray elems frozen)
         /\ key_usages k = VRef copy
         /\ st_heap s !! copy = None
         /\ st_heap s' !! copy = Some (OArray elems true)
         /\ st_heap s' !! lu = Some (OArray elems frozen).
Proof.
  intros Hrun.
  assert (fst (SubtleCrypto.deriveKey_validate arguments P s) = Returns tt) as Hvalid.
  { destruct (fst (SubtleCrypto.deriveKey_validate arguments P s)) as [[] | e] eqn:Hvalid;
      [reflexivity |].
    unfold SubtleCrypto.deriveKey, async in Hrun.
    rewrite (bind_throws _ _ P s e) in Hrun;
      [discriminate | auto with readonly | exact Hvalid]. }
  destruct (deriveKey_run _ P s Hvalid) as (lu & elems & frozen & Hu & Hlu & Heq).
  cbv zeta in Heq. rewrite Heq in Hrun. clear Heq.
  destruct (respond P _ _) as [result | reason]; [| discriminate].
  injection Hrun as <- <-. simpl.
  do 2 eexists. split; [reflexivity |].
  split; [apply lookup_ge_None; lia |].
  split.
  { rewrite lookup_app_r by lia.
    replace (S (S (length (st_heap s))) - length (st_heap s)) with 2 by lia.
    reflexivity. }
  simpl. repeat (split; [reflexivity |]).
  split; [apply cidOf_fresh |].
  exists lu, elems, frozen, (S (length (st_heap s))).
  split; [exact Hu |]. split; [exact Hlu |]. split; [reflexivity |].
  split; [apply lookup_ge_None; lia |].
  split; [| apply lookup_extended; exact Hlu].
  rewrite lookup_app_r by lia.
  replace (S (length (st_heap s)) - length (st_heap s)) with 1 by lia.
  reflexivity.
Qed.

(** [deriveKey({name: "HKDF", hash, salt, info}, key, {name: "AES-GCM",
    length: 256}, false, usages)] *)
Lemma deriveKey_key_attributes_witness :
  exists key s' lk k,
    SubtleCrypto.deriveKey
      [DeriveFixture.hkdfSha256; Fixture.hkdfKey; DeriveFixture.aes256; VBool false;
       Fixture.usages]
      Fixture.serving DeriveFixture.start = (Returns (Fulfilled key), s')
    /\ key = VRef lk
    /\ st_heap s' !! lk = Some (OCryptoKey k)
    /\ key_type k = VStr "secret"
    /\ key_algorithm k = DeriveFixture.hkdfSha256.
Proof.
  eexists. eexists.
  destruct (deriveKey_key_attributes
              [DeriveFixture.hkdfSha256; Fixture.hkdfKey; DeriveFixture.aes256;
               VBool false; Fixture.usages]
              Fixture.serving DeriveFixture.start _ _ eq_refl)
    as (lk & k & Hkey & _ & Hk & Htype & Halgorithm & _).
  exists lk, k. split; [reflexivity |]. split; [exact Hkey |]. split; [exact Hk |].
  split; [exact Htype | exact Halgorithm].
Defined.

(** ** A refused import or derivation *)

(** When the Provider refuses the request of [importKey] or of
    [deriveKey], the promise rejects with the Provider's reason, and the
    native key that was created for the result is not destroyed: it stays
    live, the only new object of the heap, with no key handle over it. *)
Theorem refused_key_stays_live
    (arguments : list value) (reason : string) (P : Provider) (s : state) :
  let c := st_next s in
  let refused (run : completion (promise value) * state) :=
    fst run = Returns (Rejected (NativeError reason))
    /\ st_live (snd run) = c :: st_live s
    /\ st_heap (snd run) = st_heap s ++ [O_CryptoKey c]
    /\ ~ In (Destroy c) (st_log (snd run)) in
  (fst (SubtleCrypto.importKey_validate arguments P s) = Returns tt ->
   ~ In (Destroy c) (st_log s) ->
   (let request := import_call c (arg 0 arguments) (arg 1 arguments)
                     (collapsed (st_heap s) (arg 2 arguments))
                     (arg 3 arguments) (arg 4 arguments) in
    respond P (st_log s ++ [Create c; Call request]) request = Failure reason) ->
   refused (SubtleCrypto.importKey arguments P s))
  /\ (fst (SubtleCrypto.deriveKey_validate arguments P s) = Returns tt ->
      ~ In (Destroy c) (st_log s) ->
      (let request := derive_call c (arg 0 arguments) (arg 1 arguments)
                        (arg 2 arguments) (arg 3 arguments) (arg 4 arguments) in
       respond P (st_log s ++ [Create c; Call request]) request = Failure reason) ->
      refused (SubtleCrypto.deriveKey arguments P s)).
Proof.
  cbv zeta. split; intros Hvalid Hlog Hrefused.
  - destruct (importKey_run _ P s Hvalid) as (lu & elems & frozen & _ & _ & Heq).
    cbv zeta in Heq. rewrite Heq, Hrefused. simpl.
    repeat split. rewrite in_app_iff. intros [Hin | Hin]; [exact (Hlog Hin) |].
    simpl in Hin. destruct Hin as [H | [H | [H | []]]]; discriminate.
  - destruct (deriveKey_run _ P s Hvalid) as (lu & elems & frozen & _ & _ & Heq).
    cbv zeta in Heq. rewrite Heq, Hrefused. simpl.
    repeat split. rewrite in_app_iff. intros [Hin | Hin]; [exact (Hlog Hin) |].
    simpl in Hin. destruct Hin as [H | [H | [H | []]]]; discriminate.
Qed.

(** [importKey("raw", bytes, "HKDF", false, usages)], refused. *)
Lemma refused_key_stays_live_witness :
  fst (SubtleCrypto.importKey
         [VStr "raw"; Fixture.bytes; VStr "HKDF"; VBool false; Fixture.usages]
         Fixture.refusing Fixture.start) = Returns (Rejected (NativeError "refused"))
  /\ st_live (snd (SubtleCrypto.importKey
                     [VStr "raw"; Fixture.bytes; VStr "HKDF"; VBool false; Fixture.usages]
                     Fixture.refusing Fixture.start)) = [1; 0].
Proof.
  destruct (proj1 (refused_key_stays_live
                     [VStr "raw"; Fixture.bytes; VStr "HKDF"; VBool false; Fixture.usages]
                     "refused" Fixture.refusing Fixture.start)
              eq_refl (fun H => H) eq_refl)
    as (Hp & Hlive & _).
  split; [exact Hp | exact Hlive].
Defined.

(** ** [getRandomValues]: what is written, and where *)

(** An accepted [getRandomValues] whose answer has the right length
    returns its argument, sends one request, and writes to one object only:
    the buffer under the view.  The buffer keeps its length, and its bytes
    from [byteLength] on are as they were; every other object of the heap,
    and the native objects, are untouched.  For an empty view nothing
    changes in the heap at all. *)
Theorem getRandomValues_touches_only_its_buffer
    (typedArray : value) (rest : list value) (vw : view) (bytes : list byte)
    (P : Provider) (s : state) :
  isView (st_heap s) typedArray = Some vw ->
  isFloatArray (view_kind vw) = false ->
  st_heap s !! view_buffer vw = Some (OArrayBuffer bytes) ->
  view_byteLength vw <= length bytes ->
  length (randomBytes P (st_log s) (view_byteLength vw)) = view_byteLength vw ->
  exists s',
    Crypto.getRandomValues (typedArray :: rest) P s = (Returns typedArray, s')
    /\ st_live s' = st_live s /\ st_next s' = st_next s
    /\ st_log s' = st_log s ++ [Call (getRandomValues_call (view_byteLength vw))]
    /\ length (st_heap s') = length (st_heap s)
    /\ (forall l, l <> view_buffer vw -> st_heap s' !! l = st_heap s !! l)
    /\ length (bufferBytes (st_heap s') (view_buffer vw)) = length bytes
    /\ drop (view_byteLength vw) (bufferBytes (st_heap s') (view_buffer vw))
       = drop (view_byteLength vw) bytes
    /\ (view_byteLength vw = 0 -> st_heap s' = st_heap s).
Proof.
  intros Hview Hfloat Hbuf Hfit Hlen.
  unfold Crypto.getRandomValues. run. rewrite arg_0, Hview, Hfloat.
  unfold NativeCrypto.getRandomValues, NativeCrypto.nativeCall_getRandomValues. run.
  set (values := randomBytes P (st_log s) (view_byteLength vw)) in *.
  rewrite Hlen, Nat.eqb_refl. simpl.
  unfold NativeCrypto.Uint8Array_set. run. rewrite Hbuf.
  destruct (Nat.ltb_spec (length bytes) (length values)) as [Hlt | Hge]; [lia |].
  simpl. eexists. split; [reflexivity |]. simpl.
  assert (view_buffer vw < length (st_heap s)) as Hin
    by (apply lookup_lt_Some in Hbuf; exact Hbuf).
  split; [reflexivity |]. split; [reflexivity |]. split; [reflexivity |].
  repeat split.
  - apply length_insert.
  - intros l Hl. apply list_lookup_insert_ne. congruence.
  - unfold bufferBytes. rewrite list_lookup_insert_eq by exact Hin.
    rewrite length_app, length_drop. lia.
  - unfold bufferBytes. rewrite list_lookup_insert_eq by exact Hin.
    rewrite <- Hlen. apply drop_app_length.
  - intros Hzero. rewrite Hzero in Hlen.
    destruct values; [| discriminate]. simpl.
    apply list_insert_id. exact Hbuf.
Qed.

(** [getRandomValues(whole)]: four bytes over the whole buffer. *)
Lemma getRandomValues_touches_only_its_buffer_witness :
  exists s',
    Crypto.getRandomValues [Fixture.whole] Fixture.serving Fixture.start
      = (Returns Fixture.whole, s')
    /\ st_heap s' !! 0 = Some (OArrayBuffer [xaa; xaa; xaa; xaa])
    /\ forall l, l <> 0 -> st_heap s' !! l = st_heap Fixture.start !! l.
Proof.
  destruct (getRandomValues_touches_only_its_buffer Fixture.whole []
              (View Uint8Array 0 0 4) [x00; x00; x00; x00] Fixture.serving Fixture.start
              eq_refl eq_refl eq_refl (le_n 4) eq_refl)
    as (s' & Hrun & _ & _ & _ & _ & Hframe & _).
  exists s'. split; [exact Hrun |]. split; [| exact Hframe].
  injection Hrun as <-. reflexivity.
Defined.

(** The view of the whole buffer, filled. *)
Lemma getRandomValues_fills_view_at_offset_0_witness :
  exists s',
    Crypto.getRandomValues [Fixture.whole] Fixture.serving Fixture.start
      = (Returns Fixture.whole, s')
    /\ viewBytes (st_heap s') (View Uint8Array 0 0 4) = [xaa; xaa; xaa; xaa].
Proof.
  exact (getRandomValues_fills_view_at_offset_0 Fixture.whole []
           (View Uint8Array 0 0 4) [x00; x00; x00; x00] Fixture.serving Fixture.start
           eq_refl eq_refl eq_refl (le_n 4) eq_refl eq_refl).
Defined.

(** A string is no view. *)
Lemma getRandomValues_refuses_witness :
  Crypto.getRandomValues [VStr "bytes"] Fixture.serving Fixture.start
  = (Throws (NotAcceptedArrayType (VStr "bytes")), Fixture.start).
Proof.
  exact (getRandomValues_refuses (VStr "bytes") [] Fixture.serving Fixture.start I).
Defined.

(** ** What the checks let through *)

Lemma importKey_validate_accepts (arguments : list value) (P : Provider) (s : state) :
  length arguments = 5
  /\ Set_has ["spki"; "pkcs8"; "raw"] (arg 0 arguments) = true
  /\ hasType (st_heap s) (getBuffer (st_heap s) (arg 1 arguments)) TArrayBuffer = true
  /\ ((exists name, arg 2 arguments = VStr name
                    /\ inb name ["ECDH"; "AES-GCM"; "HKDF"] = true)
      \/ (exists l fields, arg 2 arguments = VRef l
                           /\ st_heap s !! l = Some (ORecord fields)
                           /\ acceptedDescriptor fields))
  /\ hasType (st_heap s) (arg 3 arguments) TBoolean = true
  /\ hasType (st_heap s) (arg 4 arguments) TArray = true ->
  fst (SubtleCrypto.importKey_validate arguments P s) = Returns tt.
Proof.
  intros (Hlen & Hformat & HkeyData & Halgorithm & Hextractable & Husages).
  unfold SubtleCrypto.importKey_validate. rewrite Hlen. simpl.
  rewrite run_bind, allowOnlyValues_run by exact Hformat.
  rewrite run_bind. unfold getHeap at 1. cbv beta iota.
  rewrite run_bind, checkType_run by exact HkeyData.
  assert (forall k : unit -> M unit,
            k tt P s = (Returns tt, s) ->
            (match arg 2 arguments with
             | VStr _ => allowOnlyValues (arg 2 arguments) ["ECDH"; "AES-GCM"; "HKDF"]
                           "algorithm"
             | _ =>
                 checkType (arg 2 arguments) TObject "algorithm" false;;
                 name ← getProp (arg 2 arguments) "name";
                 allowOnlyValues name ["ECDH"; "AES-GCM"] "algorithm.name";;
                 name ← getProp (arg 2 arguments) "name";
                 if strictEqStr name "ECDH" then
                   allowOnlyKeys (arg 2 arguments) ["name"; "namedCurve"];;
                   namedCurve ← getProp (arg 2 arguments) "namedCurve";
                   allowOnlyValues namedCurve ["P-256"] "algorithm.namedCurve"
                 else allowOnlyKeys (arg 2 arguments) ["name"]
             end ≫= k) P s = (Returns tt, s)) as Hmiddle.
  { intros k Hk.
    destruct Halgorithm as [(name & -> & Hname) | (l & fields & -> & Hobj & Haccepted)].
    - rewrite run_bind, allowOnlyValues_run by exact Hname. exact Hk.
    - rewrite run_bind, run_bind, checkType_run
        by (unfold hasType; rewrite Hobj; reflexivity).
      rewrite run_bind, (getProp_record l fields "name" P s Hobj).
      destruct Haccepted as [(Hname & Hcurve & Hkeys) | (Hname & Hkeys)]; rewrite Hname.
      + rewrite run_bind, allowOnlyValues_run by reflexivity.
        rewrite run_bind, (getProp_record l fields "name" P s Hobj), Hname.
        change (strictEqStr (VStr "ECDH") "ECDH") with true. cbv iota.
        rewrite run_bind, allowOnlyKeys_run
          by (rewrite (ownKeys_record _ _ _ Hobj); exact Hkeys).
        rewrite run_bind, (getProp_record l fields "namedCurve" P s Hobj), Hcurve.
        rewrite allowOnlyValues_run by reflexivity. exact Hk.
      + rewrite run_bind, allowOnlyValues_run by reflexivity.
        rewrite run_bind, (getProp_record l fields "name" P s Hobj), Hname.
        change (strictEqStr (VStr "AES-GCM") "ECDH") with false. cbv iota.
        rewrite allowOnlyKeys_run
          by (rewrite (ownKeys_record _ _ _ Hobj); exact Hkeys).
        exact Hk. }
  rewrite Hmiddle; [reflexivity |].
  rewrite run_bind, checkType_run by exact Hextractable.
  apply checkType_run. exact Husages.
Qed.

(** The checks of [importKey] pass exactly on five arguments: a format among
    ["spki"], ["pkcs8"], ["raw"]; buffer-like key data; as algorithm one of
    the strings ["ECDH"], ["AES-GCM"], ["HKDF"], or an ECDH descriptor with
    [namedCurve] ["P-256"] and no key but [name] and [namedCurve], or an
    AES-GCM descriptor with no key but [name]; a boolean; and an array. *)
Theorem importKey_validate_iff (arguments : list value) (P : Provider) (s : state) :
  fst (SubtleCrypto.importKey_validate arguments P s) = Returns tt
  <-> length arguments = 5
      /\ Set_has ["spki"; "pkcs8"; "raw"] (arg 0 arguments) = true
      /\ hasType (st_heap s) (getBuffer (st_heap s) (arg 1 arguments)) TArrayBuffer = true
      /\ ((exists name, arg 2 arguments = VStr name
                        /\ inb name ["ECDH"; "AES-GCM"; "HKDF"] = true)
          \/ (exists l fields, arg 2 arguments = VRef l
                               /\ st_heap s !! l = Some (ORecord fields)
                               /\ acceptedDescriptor fields))
      /\ hasType (st_heap s) (arg 3 arguments) TBoolean = true
      /\ hasType (st_heap s) (arg 4 arguments) TArray = true.
Proof.
  split.
  - apply importKey_validate_passes.
  - apply importKey_validate_accepts.
Qed.


Lemma readonly_generateKey_validate arguments :
  readonly (SubtleCrypto.generateKey_validate arguments).
Proof. unfold SubtleCrypto.generateKey_validate. readonly_tac. Qed.

(** The checks of [generateKey] pass exactly on three arguments: a plain
    object named ["ECDH"] with [namedCurve] ["P-256"] and no other key, a
    boolean, and an array.  What they let through as algorithm, the checks
    of [importKey] let through too, beside any valid format, key data,
    boolean and array. *)
Theorem generateKey_validate_iff (arguments : list value) (P : Provider) (s : state) :
  (fst (SubtleCrypto.generateKey_validate arguments P s) = Returns tt
   <-> length arguments = 3
       /\ (exists l fields,
             arg 0 arguments = VRef l /\ st_heap s !! l = Some (ORecord fields)
             /\ keysWithin ["name"; "namedCurve"] fields
             /\ lookupField "name" fields = VStr "ECDH"
             /\ lookupField "namedCurve" fields = VStr "P-256")
       /\ hasType (st_heap s) (arg 1 arguments) TBoolean = true
       /\ hasType (st_heap s) (arg 2 arguments) TArray = true)
  /\ (fst (SubtleCrypto.generateKey_validate arguments P s) = Returns tt ->
      forall format keyData,
        Set_has ["spki"; "pkcs8"; "raw"] format = true ->
        hasType (st_heap s) (getBuffer (st_heap s) keyData) TArrayBuffer = true ->
        fst (SubtleCrypto.importKey_validate
               [format; keyData; arg 0 arguments; arg 1 arguments; arg 2 arguments] P s)
        = Returns tt).
Proof.
  assert (fst (SubtleCrypto.generateKey_validate arguments P s) = Returns tt ->
          length arguments = 3
          /\ (exists l fields,
                arg 0 arguments = VRef l /\ st_heap s !! l = Some (ORecord fields)
                /\ keysWithin ["name"; "namedCurve"] fields
                /\ lookupField "name" fields = VStr "ECDH"
                /\ lookupField "namedCurve" fields = VStr "P-256")
          /\ hasType (st_heap s) (arg 1 arguments) TBoolean = true
          /\ hasType (st_heap s) (arg 2 arguments) TArray = true) as Hpasses.
  { unfold SubtleCrypto.generateKey_validate.
    destruct (Nat.eqb_spec (length arguments) 3) as [Hlen | Hlen]; [| discriminate].
    simpl. intros H.
    inv_bind H u1 Hkeys. apply allowOnlyKeys_passes in Hkeys.
    inv_bind H name Hname.
    inv_bind H u2 Hallowed. apply allowOnlyValues_passes in Hallowed.
    apply Set_has_spec in Hallowed. destruct Hallowed as (x & -> & [<- | []]).
    destruct (getProp_name_string _ _ P s Hname) as (l & fields & Hl & Hobj & Hfield).
    rewrite Hl in *.
    inv_bind H namedCurve Hcurve.
    rewrite (getProp_record l fields "namedCurve" P s Hobj) in Hcurve.
    injection Hcurve as <-.
    inv_bind H u3 Hp256. apply allowOnlyValues_passes in Hp256.
    apply Set_has_spec in Hp256. destruct Hp256 as (y & Hy & [<- | []]).
    inv_bind H u4 Hextractable. apply checkType_passes in Hextractable.
    apply checkType_passes in H.
    rewrite (ownKeys_record _ _ _ Hobj) in Hkeys.
    repeat split; try assumption. exists l, fields. repeat split; assumption. }
  split; [split; [exact Hpasses |] |].
  - intros (Hlen & (l & fields & Hl & Hobj & Hkeys & Hname & Hcurve)
            & Hextractable & Husages).
    unfold SubtleCrypto.generateKey_validate. rewrite Hlen, Hl. simpl.
    rewrite run_bind, allowOnlyKeys_run
      by (rewrite (ownKeys_record _ _ _ Hobj); exact Hkeys).
    rewrite run_bind, (getProp_record l fields "name" P s Hobj), Hname.
    rewrite run_bind, allowOnlyValues_run by reflexivity.
    rewrite run_bind, (getProp_record l fields "namedCurve" P s Hobj), Hcurve.
    rewrite run_bind, allowOnlyValues_run by reflexivity.
    rewrite run_bind, checkType_run by exact Hextractable.
    rewrite checkType_run by exact Husages. reflexivity.
  - intros Hvalid format keyData Hformat HkeyData.
    destruct (Hpasses Hvalid)
      as (_ & (l & fields & Hl & Hobj & Hkeys & Hname & Hcurve) & Hextractable & Husages).
    apply importKey_validate_accepts. autorewrite with args. simpl.
    repeat split; try assumption.
    right. exists l, fields. split; [exact Hl |]. split; [exact Hobj |].
    left. repeat split; assumption.
Qed.

(** [generateKey({name: "ECDH", namedCurve: "P-256"}, true, usages)] *)
Lemma generateKey_validate_iff_witness :
  fst (SubtleCrypto.importKey_validate
         [VStr "pkcs8"; Fixture.bytes; Fixture.ecdhP256; VBool true; Fixture.usages]
         Fixture.serving Fixture.start) = Returns tt.
Proof.
  exact (proj2 (generateKey_validate_iff [Fixture.ecdhP256; VBool true; Fixture.usages]
                  Fixture.serving Fixture.start)
           eq_refl (VStr "pkcs8") Fixture.bytes eq_refl eq_refl).
Defined.

(** ** Failing the checks *)

(** A call to [importKey], [deriveBits], [deriveKey], [encrypt] or
    [decrypt] that fails one of its checks rejects with the error of that
    check and has no effect: no native key is created, nothing is sent to
    the Provider, and the heap is as it was. *)
Theorem failed_checks_have_no_effect (ToNumber_other : heap -> value -> float)
    (arguments : list value) (e : error) (P : Provider) (s : state) :
  (fst (SubtleCrypto.importKey_validate arguments P s) = Throws e ->
   SubtleCrypto.importKey arguments P s = (Returns (Rejected e), s))
  /\ (fst (SubtleCrypto.deriveBits_validate arguments P s) = Throws e ->
      SubtleCrypto.deriveBits arguments P s = (Returns (Rejected e), s))
  /\ (fst (SubtleCrypto.deriveKey_validate arguments P s) = Throws e ->
      SubtleCrypto.deriveKey arguments P s = (Returns (Rejected e), s))
  /\ (fst (SubtleCrypto.cipher_validate arguments P s) = Throws e ->
      SubtleCrypto.encrypt ToNumber_other arguments P s = (Returns (Rejected e), s)
      /\ SubtleCrypto.decrypt ToNumber_other arguments P s = (Returns (Rejected e), s)).
Proof.
  split; [| split; [| split]]; intros Hvalid; [| | | split].
  - unfold SubtleCrypto.importKey, async.
    rewrite (bind_throws _ _ P s e); [reflexivity | auto with readonly | exact Hvalid].
  - unfold SubtleCrypto.deriveBits, async.
    rewrite (bind_throws _ _ P s e); [reflexivity | auto with readonly | exact Hvalid].
  - unfold SubtleCrypto.deriveKey, async.
    rewrite (bind_throws _ _ P s e); [reflexivity | auto with readonly | exact Hvalid].
  - unfold SubtleCrypto.encrypt, async.
    rewrite (bind_throws _ _ P s e); [reflexivity | auto with readonly | exact Hvalid].
  - unfold SubtleCrypto.decrypt, async.
    rewrite (bind_throws _ _ P s e); [reflexivity | auto with readonly | exact Hvalid].
Qed.

(** [deriveKey] with a base key that is no key handle. *)
Lemma failed_checks_have_no_effect_witness :
  SubtleCrypto.deriveKey
    [VStr "HKDF"; Fixture.bytes; DeriveFixture.aes256; VBool false; Fixture.usages]
    Fixture.serving DeriveFixture.start
  = (Returns (Rejected (UnexpectedType "baseKey" TCryptoKey Fixture.bytes)),
     DeriveFixture.start).
Proof.
  exact (proj1 (proj2 (proj2 (failed_checks_have_no_effect Fixture.noCoercion
           [VStr "HKDF"; Fixture.bytes; DeriveFixture.aes256; VBool false; Fixture.usages]
           (UnexpectedType "baseKey" TCryptoKey Fixture.bytes)
           Fixture.serving DeriveFixture.start))) eq_refl).
Defined.

(** ** From a key handle back to the Provider *)

(** A key handle that [importKey] or [deriveKey] returned leads back to the
    native key of the request that made it: [exportKey] of the handle, in
    the state the call left and against any Provider, asks for the export
    of the very native key the import or derive request had named. *)
Theorem exportKey_names_the_key_made
    (arguments : list value) (format key : value) (P P' : Provider) (s s' : state) :
  Set_has ["raw"; "spki"] format = true ->
  let c := st_next s in
  (SubtleCrypto.importKey arguments P s = (Returns (Fulfilled key), s') ->
   In (Call (import_call c (arg 0 arguments) (arg 1 arguments)
               (collapsed (st_heap s) (arg 2 arguments))
               (arg 3 arguments) (arg 4 arguments))) (st_log s')
   /\ SubtleCrypto.exportKey [format; key] P' s'
      = request (subtleExportKey_call format (Some c)) P' s')
  /\ (SubtleCrypto.deriveKey arguments P s = (Returns (Fulfilled key), s') ->
      In (Call (derive_call c (arg 0 arguments) (arg 1 arguments) (arg 2 arguments)
                  (arg 3 arguments) (arg 4 arguments))) (st_log s')
      /\ SubtleCrypto.exportKey [format; key] P' s'
         = request (subtleExportKey_call format (Some c)) P' s').
Proof.
  intros Hformat. cbv zeta.
  assert (forall h k rest,
            hasType (h ++ [O_CryptoKey (st_next s); rest; OCryptoKey k])
              (VRef (S (S (length h)))) TCryptoKey = true) as Hhandle.
  { intros h k rest. unfold hasType. rewrite lookup_app_r by lia.
    replace (S (S (length h)) - length h) with 2 by lia. reflexivity. }
  assert (forall h rest a b t u,
            getCid (h ++ [O_CryptoKey (st_next s); rest;
                          OCryptoKey (KeyData (length h) a b t u)])
              (VRef (S (S (length h)))) = Some (st_next s)) as Hcid.
  { intros h rest a b t u. unfold getCid. rewrite lookup_app_r by lia.
    replace (S (S (length h)) - length h) with 2 by lia. simpl.
    apply cidOf_fresh. }
  split; intros Hrun.
  - pose proof (importKey_fulfilled_passed _ _ _ _ _ Hrun) as Hvalid.
    destruct (importKey_run _ P s Hvalid) as (lu & elems & frozen & _ & _ & Heq).
    cbv zeta in Heq. rewrite Heq in Hrun. clear Heq.
    destruct (respond P _ _) as [result | reason]; [| discriminate].
    injection Hrun as <- <-. simpl. split.
    + rewrite in_app_iff. right. simpl. auto.
    + pose proof (exportKey_run [format; VRef (S (S (length (st_heap s))))] P') as Hexport.
      cbv zeta in Hexport. rewrite Hexport. autorewrite with args. simpl.
      rewrite Hformat, Hhandle, Hcid. reflexivity.
  - assert (fst (SubtleCrypto.deriveKey_validate arguments P s) = Returns tt) as Hvalid.
    { destruct (fst (SubtleCrypto.deriveKey_validate arguments P s)) as [[] | e] eqn:Hvalid;
        [reflexivity |].
      unfold SubtleCrypto.deriveKey, async in Hrun.
      rewrite (bind_throws _ _ P s e) in Hrun;
        [discriminate | auto with readonly | exact Hvalid]. }
    destruct (deriveKey_run _ P s Hvalid) as (lu & elems & frozen & _ & _ & Heq).
    cbv zeta in Heq. rewrite Heq in Hrun. clear Heq.
    destruct (respond P _ _) as [result | reason]; [| discriminate].
    injection Hrun as <- <-. simpl. split.
    + rewrite in_app_iff. right. simpl. auto.
    + pose proof (exportKey_run [format; VRef (S (S (length (st_heap s))))] P') as Hexport.
      cbv zeta in Hexport. rewrite Hexport. autorewrite with args. simpl.
      rewrite Hformat, Hhandle, Hcid. reflexivity.
Qed.

(** [exportKey("raw", await importKey("raw", bytes, "AES-GCM", true,
    usages))] asks for the native key 1. *)
Lemma exportKey_names_the_key_made_witness :
  exists key s',
    SubtleCrypto.importKey
      [VStr "raw"; Fixture.bytes; VStr "AES-GCM"; VBool true; Fixture.usages]
      Fixture.serving Fixture.start = (Returns (Fulfilled key), s')
    /\ SubtleCrypto.exportKey [VStr "raw"; key] Fixture.refusing s'
       = request (subtleExportKey_call (VStr "raw") (Some 1)) Fixture.refusing s'.
Proof.
  eexists. eexists. split; [reflexivity |].
  refine (proj2 (proj1 (exportKey_names_the_key_made
                   [VStr "raw"; Fixture.bytes; VStr "AES-GCM"; VBool true; Fixture.usages]
                   (VStr "raw") _ Fixture.serving Fixture.refusing Fixture.start _
                   eq_refl) eq_refl)).
Defined.

(** ** Argument counts *)

(** The argument count is the first check of [exportKey] (2), [deriveBits],
    [encrypt] and [decrypt] (3) and [deriveKey] (5): a call with another
    count rejects with the argument-count error and has no effect, whatever
    the arguments are.  [digest] alone asks for a minimum: arguments after
    the second are ignored. *)
Theorem argument_counts (ToNumber_other : heap -> value -> float)
    (arguments : list value) (P : Provider) (s : state) :
  let n := length arguments in
  (n <> 2 ->
   SubtleCrypto.exportKey arguments P s = (Returns (Rejected (ExpectedArguments 2 n)), s))
  /\ (n <> 3 ->
      SubtleCrypto.deriveBits arguments P s = (Returns (Rejected (ExpectedArguments 3 n)), s)
      /\ SubtleCrypto.encrypt ToNumber_other arguments P s
         = (Returns (Rejected (ExpectedArguments 3 n)), s)
      /\ SubtleCrypto.decrypt ToNumber_other arguments P s
         = (Returns (Rejected (ExpectedArguments 3 n)), s))
  /\ (n <> 5 ->
      SubtleCrypto.deriveKey arguments P s = (Returns (Rejected (ExpectedArguments 5 n)), s))
  /\ (forall algorithm data rest,
        SubtleCrypto.digest (algorithm :: data :: rest) P s
        = SubtleCrypto.digest [algorithm; data] P s).
Proof.
  cbv zeta. split; [| split; [| split]].
  - intros Hn. pose proof (exportKey_run arguments P s) as Hrun. cbv zeta in Hrun.
    rewrite Hrun. destruct (Nat.eqb_spec (length arguments) 2); [contradiction | reflexivity].
  - intros Hn.
    assert (fst (SubtleCrypto.deriveBits_validate arguments P s)
            = Throws (ExpectedArguments 3 (length arguments))) as Hbits.
    { unfold SubtleCrypto.deriveBits_validate.
      destruct (Nat.eqb_spec (length arguments) 3); [contradiction | reflexivity]. }
    assert (fst (SubtleCrypto.cipher_validate arguments P s)
            = Throws (ExpectedArguments 3 (length arguments))) as Hcipher.
    { unfold SubtleCrypto.cipher_validate.
      destruct (Nat.eqb_spec (length arguments) 3); [contradiction | reflexivity]. }
    split; [| split].
    + unfold SubtleCrypto.deriveBits, async.
      rewrite (bind_throws _ _ P s _ (readonly_deriveBits_validate _) Hbits). reflexivity.
    + unfold SubtleCrypto.encrypt, async.
      rewrite (bind_throws _ _ P s _ (readonly_cipher_validate _) Hcipher). reflexivity.
    + unfold SubtleCrypto.decrypt, async.
      rewrite (bind_throws _ _ P s _ (readonly_cipher_validate _) Hcipher). reflexivity.
  - intros Hn.
    assert (fst (SubtleCrypto.deriveKey_validate arguments P s)
            = Throws (ExpectedArguments 5 (length arguments))) as Hkey.
    { unfold SubtleCrypto.deriveKey_validate.
      destruct (Nat.eqb_spec (length arguments) 5); [contradiction | reflexivity]. }
    unfold SubtleCrypto.deriveKey, async.
    rewrite (bind_throws _ _ P s _ (readonly_deriveKey_validate _) Hkey). reflexivity.
  - intros algorithm data rest. reflexivity.
Qed.

(** [deriveKey] with three arguments. *)
Lemma argument_counts_witness :
  SubtleCrypto.deriveKey [VStr "HKDF"; Fixture.hkdfKey; VNum 256%float]
    Fixture.serving Fixture.start
  = (Returns (Rejected (ExpectedArguments 5 3)), Fixture.start).
Proof.
  refine (proj1 (proj2 (proj2 (argument_counts Fixture.noCoercion
            [VStr "HKDF"; Fixture.hkdfKey; VNum 256%float]
            Fixture.serving Fixture.start))) _).
  simpl. lia.
Defined.

(** ** What the Provider is told and what the handle says *)

(** The algorithm, the flag and the usages that a successful [importKey]
    puts on the key handle are those its import request gave the Provider:
    the handle's [algorithm] and [extractable] are the request's, and the
    handle's [usages] holds the elements of the array the request named. *)
Theorem importKey_handle_matches_request
    (arguments : list value) (P : Provider) (s s' : state) (key : value) :
  SubtleCrypto.importKey arguments P s = (Returns (Fulfilled key), s') ->
  exists lk k format keyData usages copy elems frozen,
    key = VRef lk
    /\ st_heap s' !! lk = Some (OCryptoKey k)
    /\ In (Call (import_call (st_next s) format keyData (key_algorithm k)
                   (key_extractable k) (VRef usages))) (st_log s')
    /\ cidOf (st_heap s') (key_native k) = Some (st_next s)
    /\ key_usages k = VRef copy
    /\ st_heap s' !! usages = Some (OArray elems frozen)
    /\ st_heap s' !! copy = Some (OArray elems true).
Proof.
  intros Hrun.
  pose proof (importKey_fulfilled_passed _ _ _ _ _ Hrun) as Hvalid.
  destruct (importKey_run _ P s Hvalid) as (lu & elems & frozen & Hu & Hlu & Heq).
  cbv zeta in Heq. rewrite Heq in Hrun. clear Heq.
  destruct (respond P _ _) as [result | reason]; [| discriminate].
  injection Hrun as <- <-. simpl.
  do 2 eexists. exists (arg 0 arguments), (arg 1 arguments), lu,
    (S (length (st_heap s))), elems, frozen.
  split; [reflexivity |].
  split.
  { rewrite lookup_app_r by lia.
    replace (S (S (length (st_heap s))) - length (st_heap s)) with 2 by lia.
    reflexivity. }
  simpl. split; [rewrite in_app_iff; right; rewrite Hu; simpl; auto |].
  split; [apply cidOf_fresh |]. split; [reflexivity |].
  split; [apply lookup_extended; exact Hlu |].
  rewrite lookup_app_r by lia.
  replace (S (length (st_heap s)) - length (st_heap s)) with 1 by lia.
  reflexivity.
Qed.

Lemma importKey_handle_matches_request_witness :
  exists key s' lk k,
    SubtleCrypto.importKey
      [VStr "raw"; Fixture.bytes; Fixture.aesGcm; VBool false; Fixture.usages]
      Fixture.serving Fixture.start = (Returns (Fulfilled key), s')
    /\ key = VRef lk
    /\ st_heap s' !! lk = Some (OCryptoKey k)
    /\ cidOf (st_heap s') (key_native k) = Some 1.
Proof.
  eexists. eexists.
  destruct (importKey_handle_matches_request
              [VStr "raw"; Fixture.bytes; Fixture.aesGcm; VBool false; Fixture.usages]
              Fixture.serving Fixture.start _ _ eq_refl)
    as (lk & k & format & keyData & usages & copy & elems & frozen
        & Hkey & Hk & _ & Hcid & _).
  exists lk, k. split; [reflexivity |]. split; [exact Hkey |].
  split; [exact Hk | exact Hcid].
Defined.
